(** * Subnet bootstrap workflow of the network runner ([vms/subnet.go])

    A shallow embedding of [SetupSubnet] and the functions it calls.

    The collaborators of the workflow (the fleet handle, the nodes' API
    clients, the file system, the clock) are a state machine over an
    arbitrary world type [W]: every call takes the world, answers and
    leaves a new world behind.  Every call, every timer armed by a poll loop
    and every log line is appended to a trace, so that statements about
    what was called, by whom and in which order are statements about lists.

    Goroutines are interleaved by an explicit schedule: a list of choices,
    each naming the goroutine that moves next or the cancellation of the
    caller's context.  A choice that is not enabled is skipped.  A function
    that is still waiting when the schedule is used up yields [Pending]. *)

From stdpp Require Import gmap strings list fin_maps.
From Stdlib Require Import ZArith.

Local Open Scope Z_scope.
Local Open Scope string_scope.
Local Open Scope list_scope.

(** ** Values of the Go program *)

(** [ids.ID] is a 32 byte array and [ids.ShortID] a 20 byte array; they are
    kept as the number the bytes spell. *)
Definition ID : Type := N.
Definition ShortID : Type := N.
Definition ids_Empty : ID := 0%N.

(** [time.Duration] and [time.Time] count nanoseconds. *)
Definition Duration : Type := Z.
Definition Time : Type := Z.

(** An API client is known by the endpoint it talks to. *)
Definition Client : Type := string.

(** Go [error] values.  [ErrWrap msg e] is [fmt.Errorf(msg + ": %w", e)];
    [ErrWrapNil msg] is the same call with a nil error to wrap. *)
Inductive error : Type :=
| ExtErr (msg : string)
| ErrCanceled
| ErrDeadlineExceeded
| ErrNew (msg : string)
| ErrWrap (msg : string) (inner : error)
| ErrWrapNil (msg : string).

(** A Go result pair [(T, error)] of which the caller reads one side. *)
Inductive res (A : Type) : Type :=
| Val (a : A)
| Fail (e : error).
Arguments Val {A} a.
Arguments Fail {A} e.

Record UserPass : Type := { Username : string; Password : string }.

Record Node : Type := {
  GetNodeID : ShortID;
  GetURL : string;
  GetAPIPort : Z;
  GetAPIClient : Client
}.

(** CustomVM wraps data to create a custom VM *)
Record CustomVM : Type := {
  Path : string;
  Genesis : string;
  Name : string;
  SubnetID : string;
  VMID : string
}.

(** most subfunctions share the same args... *)
Record args : Type := {
  txPChainClient : Client;
  fundedAddress : string;
  userPass : UserPass;
  allNodes : gmap string Node;
  rSubnetID : ID
}.

(** [platformvm.Status] of a transaction and the status of a blockchain. *)
Inductive Status : Type := Unknown | Committed | Aborted | Processing | Dropped.
Inductive BlockchainStatus : Type :=
  UnknownChain | Validating | Created | Preferred | Syncing.

Record APISubnet : Type := {
  subnet_ID : ID;
  subnet_ControlKeys : list string;
  subnet_Threshold : Z
}.

Global Instance Status_eq_dec : EqDecision Status.
Proof. solve_decision. Defined.
Global Instance BlockchainStatus_eq_dec : EqDecision BlockchainStatus.
Proof. solve_decision. Defined.

(** ** Goroutines, calls and the trace *)

Inductive who : Type :=
| Main
| Worker (name : string).

Global Instance who_eq_dec : EqDecision who.
Proof. solve_decision. Defined.

Inductive call : Type :=
| CGetAllNodes
| CGetNodeNames
| CCreateUser (c : Client) (up : UserPass)
| CImportKey (c : Client) (up : UserPass) (key : string)
| CCreateSubnet (c : Client) (up : UserPass) (from : list string)
    (change : string) (controlKeys : list string) (threshold : Z)
| CGetTxStatus (c : Client) (tx : ID) (includeReason : bool)
| CGetSubnets (c : Client) (subnets : list ID)
| CAddSubnetValidator (c : Client) (up : UserPass) (from : list string)
    (change : string) (subnetID : string) (nodeID : string)
    (weight : Z) (startTime endTime : Z)
| CReadFile (path : string)
| CCreateBlockchain (c : Client) (up : UserPass) (from : list string)
    (change : string) (subnetID : ID) (vmID : string) (fxIDs : list string)
    (name : string) (genesis : list Byte.byte)
| CGetBlockchainStatus (c : Client) (blockchainID : string)
| CIsBootstrapped (c : Client) (blockchainID : string)
| CNow.

Inductive resp : Type :=
| RNodes (r : res (gmap string Node))
| RNames (r : res (list string))
| RUser (ok : bool) (err : option error)
| RAddr (r : res string)
| RTx (r : res ID)
| RTxStatus (r : res Status)
| RSubnets (r : res (list APISubnet))
| RFile (r : res (list Byte.byte))
| RChainStatus (r : res BlockchainStatus)
| RBoot (b : bool) (err : option error)
| RNow (t : Time).

Inductive level : Type := Info | Debug.

Inductive logarg : Type :=
| LStr (s : string)
| LID (i : ID)
| LShortID (i : ShortID)
| LInt (z : Z).

Inductive event : Type :=
| ECall (w : who) (c : call) (r : resp)
| ETimer (w : who) (d : Duration)
| ELog (l : level) (format : string) (a : list logarg).

(** One entry of the schedule: goroutine [w] moves on ([SStep]: it arms its
    timer, or its timer fires and it runs one round of its loop), goroutine
    [w] takes the [ctx.Done()] branch of its [select] ([SDone]), or the
    caller's context is cancelled with error [e] ([SCancel]). *)
Inductive choice : Type :=
| SStep (w : who)
| SDone (w : who)
| SCancel (e : error).

(** What a Go function call comes to: a value, a non-nil error, a run-time
    panic, or no return within the schedule. *)
Inductive outcome (A : Type) : Type :=
| Ret (a : A)
| Err (e : error)
| Panic
| Pending.
Arguments Ret {A} a.
Arguments Err {A} e.
Arguments Panic {A}.
Arguments Pending {A}.

(** ** The collaborators *)

(** The operations of [network.Network], of the keystore, platform and info
    clients, [os.ReadFile] and [time.Now], over a world [W]. *)
Record API (W : Type) : Type := {
  GetAllNodes : W → res (gmap string Node) * W;
  GetNodeNames : W → res (list string) * W;
  CreateUser : Client → UserPass → W → (bool * option error) * W;
  ImportKey : Client → UserPass → string → W → res string * W;
  CreateSubnet : Client → UserPass → list string → string → list string →
                 Z → W → res ID * W;
  GetTxStatus : Client → ID → bool → W → res Status * W;
  GetSubnets : Client → list ID → W → res (list APISubnet) * W;
  AddSubnetValidator : Client → UserPass → list string → string → string →
                       string → Z → Z → Z → W → res ID * W;
  ReadFile : string → W → res (list Byte.byte) * W;
  CreateBlockchain : Client → UserPass → list string → string → ID →
                     string → list string → string → list Byte.byte →
                     W → res ID * W;
  GetBlockchainStatus : Client → string → W → res BlockchainStatus * W;
  IsBootstrapped : Client → string → W → (bool * option error) * W;
  Now : W → Time * W;
  (** the order in which a [range] over the node map visits its entries *)
  range_nodes : gmap string Node → list (string * Node);
  range_nodes_perm : ∀ m, range_nodes m ≡ₚ map_to_list m
}.
Arguments GetAllNodes {W} _ _.
Arguments GetNodeNames {W} _ _.
Arguments CreateUser {W} _ _ _ _.
Arguments ImportKey {W} _ _ _ _ _.
Arguments CreateSubnet {W} _ _ _ _ _ _ _ _.
Arguments GetTxStatus {W} _ _ _ _ _.
Arguments GetSubnets {W} _ _ _ _.
Arguments AddSubnetValidator {W} _ _ _ _ _ _ _ _ _ _ _.
Arguments ReadFile {W} _ _ _.
Arguments CreateBlockchain {W} _ _ _ _ _ _ _ _ _ _ _.
Arguments GetBlockchainStatus {W} _ _ _ _.
Arguments IsBootstrapped {W} _ _ _ _.
Arguments Now {W} _ _.
Arguments range_nodes {W} _ _.
Arguments range_nodes_perm {W} _ _.

(** What the package takes from the [ids] package and from its own
    constants, which are declared in another file of the package. *)
Record Lib : Type := {
  ids_FromString : string → res ID;
  ID_String : ID → string;
  ShortID_String : ShortID → string;
  defaultUserPass : UserPass;
  defaultKeyThreshold : Z;
  validatorWeight : Z;
  validatorStartDiff : Duration;
  validatorEndDiff : Duration;
  apiRetryFreq : Duration;
  longTimeout : Duration
}.

(** [constants.NodeIDPrefix] *)
Definition NodeIDPrefix : string := "NodeID-".

Definition PrefixedString (lib : Lib) (prefix : string) (i : ShortID) : string :=
  prefix +:+ ShortID_String lib i.

(** [uint64(t.Add(d).Unix())] *)
Definition unix_u64 (t : Time) (d : Duration) : Z :=
  ((t + d) `div` 1000000000) `mod` 2 ^ 64.

(** ** The machine *)

Record state (W : Type) : Type := {
  world : W;
  trace : list event;
  ctx : option error;
  sched : list choice
}.
Arguments world {W} _.
Arguments trace {W} _.
Arguments ctx {W} _.
Arguments sched {W} _.

Section machine.
Context {W : Type}.

Definition M (A : Type) : Type := state W → outcome A * state W.

Definition set_world (w : W) (st : state W) : state W :=
  {| world := w; trace := trace st; ctx := ctx st; sched := sched st |}.

Definition emit (e : event) (st : state W) : state W :=
  {| world := world st; trace := trace st ++ [e]; ctx := ctx st;
     sched := sched st |}.

Definition set_sched (s : list choice) (st : state W) : state W :=
  {| world := world st; trace := trace st; ctx := ctx st; sched := s |}.

(** The caller's context is cancelled once; later cancellations change
    nothing. *)
Definition cancel_ctx (e : error) (st : state W) : state W :=
  {| world := world st; trace := trace st;
     ctx := match ctx st with Some e0 => Some e0 | None => Some e end;
     sched := sched st |}.

Definition ret {A} (a : A) : M A := λ st, (Ret a, st).

Definition bind {A B} (m : M A) (f : A → M B) : M B :=
  λ st, match m st with
        | (Ret a, st') => f a st'
        | (Err e, st') => (Err e, st')
        | (Panic, st') => (Panic, st')
        | (Pending, st') => (Pending, st')
        end.

Definition fail {A} (e : error) : M A := λ st, (Err e, st).
Definition panic {A} : M A := λ st, (Panic, st).

(** [if err != nil { return fmt.Errorf(msg + ": %w", err) }] around a
    call. *)
Definition wrapping {A} (msg : string) (m : M A) : M A :=
  λ st, match m st with
        | (Err e, st') => (Err (ErrWrap msg e), st')
        | r => r
        end.

(** A call to a collaborator by goroutine [w], recorded in the trace. *)
Definition perform {A} (w : who) (c : call) (h : W → A * W)
    (r : A → resp) : M A :=
  λ st, let '(a, w') := h (world st) in
        (Ret a, emit (ECall w c (r a)) (set_world w' st)).

Definition log (l : level) (format : string) (a : list logarg) : M unit :=
  λ st, (Ret tt, emit (ELog l format a) st).

(** [v, err := f(); if err != nil { return err }] *)
Definition try {A} (r : res A) : M A :=
  match r with Val a => ret a | Fail e => fail e end.

(** The same with the error wrapped. *)
Definition try_wrap {A} (msg : string) (r : res A) : M A :=
  match r with Val a => ret a | Fail e => fail (ErrWrap msg e) end.

(** [if err != nil { return e }] around a call: the error is replaced. *)
Definition replacing {A} (e : error) (m : M A) : M A :=
  λ st, match m st with
        | (Err _, st') => (Err e, st')
        | r => r
        end.
End machine.

Notation "'let*' x := m 'in' k" := (bind m (λ x, k))
  (at level 10, x binder, m at level 100, k at level 200).

(** ** The functions of [subnet.go] that run on one goroutine *)

Section subnet.
Context {W : Type} (api : API W) (lib : Lib).

(** initialize shared args *)
Definition newArgs (vm : CustomVM) (fundedPChainPrivateKey : string)
    : M (W := W) args :=
  let userPass := defaultUserPass lib in
  let* r := perform Main CGetAllNodes (GetAllNodes api) RNodes in
  let* allNodes := try r in
  let* r := perform Main CGetNodeNames (GetNodeNames api) RNames in
  let* txNodeNames := try r in
  match txNodeNames with
  | [] => fail (ErrNew "the array of node names is empty! Can't get any nodes")
  | name0 :: _ =>
    (* txNode will be the node we issue all transactions on *)
    match allNodes !! name0 with
    | None => panic
    | Some txNode =>
      let txClient := GetAPIClient txNode in
      (* we need to create a user for platformvm calls *)
      let* r := perform Main (CCreateUser txClient userPass)
            (CreateUser api txClient userPass)
            (λ r, RUser r.1 r.2) in
      match r with
      | (true, None) =>
        let txPChainClient := txClient in
        (* Import genesis key *)
        let* r := perform Main (CImportKey txPChainClient userPass fundedPChainPrivateKey)
              (ImportKey api txPChainClient userPass fundedPChainPrivateKey)
              RAddr in
        let* fundedAddress := try_wrap "unable to import genesis key" r in
        let* rSubnetID := try_wrap "invalid subnetID string"
                      (ids_FromString lib (SubnetID vm)) in
        ret {| txPChainClient := txPChainClient;
               fundedAddress := fundedAddress;
               userPass := userPass;
               allNodes := allNodes;
               rSubnetID := rSubnetID |}
      | (_, Some err) => fail (ErrWrap "could not create user" err)
      | (false, None) => fail (ErrWrapNil "could not create user")
      end
    end
  end.

(** isSubnetInList returns an error if the given subnet is not in the
    client's list *)
Definition isSubnetInList (txPChainClient : Client) (rSubnetID : ID)
    : M (W := W) unit :=
  (* confirm created subnet appears in subnet list *)
  let* r := perform Main (CGetSubnets txPChainClient [rSubnetID])
        (GetSubnets api txPChainClient [rSubnetID]) RSubnets in
  match r with
  | Fail err => fail (ErrWrap "subnet not found" err)
  | Val _ => ret tt
  end.
End subnet.

(** ** Poll loops and the error group *)

(** Where a polling goroutine stands: at the top of its [for] loop, inside
    the [select] with a timer of [d] armed, or returned. *)
Inductive wstate : Type :=
| AtTop
| Waiting (d : Duration)
| Returned (r : option error).

Definition is_returned (w : wstate) : bool :=
  match w with Returned _ => true | _ => false end.

(** What one round of a loop body decides without an error: go round again,
    or return. *)
Inductive iter : Type := Continue | Stop.

(** An [errgroup.Group] with its derived context, the goroutines started
    with [g.Go] (keyed by the map key they were started for, each with the
    node it captured) and the variables the goroutines share. *)
Record group (S : Type) : Type := {
  g_workers : gmap string (Node * wstate);
  g_ctx : option error;
  g_err : option error;
  g_shared : S
}.
Arguments g_workers {S} _.
Arguments g_ctx {S} _.
Arguments g_err {S} _.
Arguments g_shared {S} _.

Section engine.
Context {W S : Type}.
(** The duration a goroutine hands to [time.After], read from the shared
    variables, and the body of its loop after the [select]. *)
Variable interval : S → Duration.
Variable body : string → Node → S → M (W := W) (iter * S).

Definition set_worker (n : string) (nd : Node) (w : wstate) (g : group S)
    : group S :=
  {| g_workers := <[n := (nd, w)]> (g_workers g); g_ctx := g_ctx g;
     g_err := g_err g; g_shared := g_shared g |}.

Definition set_shared (s : S) (g : group S) : group S :=
  {| g_workers := g_workers g; g_ctx := g_ctx g; g_err := g_err g;
     g_shared := s |}.

(** The derived context follows the caller's. *)
Definition cancel_group (e : error) (g : group S) : group S :=
  {| g_workers := g_workers g;
     g_ctx := match g_ctx g with Some e0 => Some e0 | None => Some e end;
     g_err := g_err g; g_shared := g_shared g |}.

(** A goroutine's function returns [r]: the first non-nil error is kept
    and cancels the derived context ([errOnce]). *)
Definition finish (n : string) (nd : Node) (r : option error) (g : group S)
    : group S :=
  let g := set_worker n nd (Returned r) g in
  match r, g_err g with
  | Some e, None =>
    {| g_workers := g_workers g;
       g_ctx := match g_ctx g with Some e0 => Some e0 | None => Some ErrCanceled end;
       g_err := Some e; g_shared := g_shared g |}
  | _, _ => g
  end.

Definition group_step (c : choice) (g : group S) (st : state W)
    : outcome (group S) * state W :=
  match c with
  | SCancel e => (Ret (cancel_group e g), cancel_ctx e st)
  | SStep (Worker n) =>
    match g_workers g !! n with
    | Some (nd, AtTop) =>
      let d := interval (g_shared g) in
      (Ret (set_worker n nd (Waiting d) g), emit (ETimer (Worker n) d) st)
    | Some (nd, Waiting _) =>
      match body n nd (g_shared g) st with
      | (Ret (Continue, s), st') => (Ret (set_shared s (set_worker n nd AtTop g)), st')
      | (Ret (Stop, s), st') => (Ret (set_shared s (finish n nd None g)), st')
      | (Err e, st') => (Ret (finish n nd (Some e) g), st')
      | (Panic, st') => (Panic, st')
      | (Pending, st') => (Pending, st')
      end
    | _ => (Ret g, st)
    end
  | SDone (Worker n) =>
    match g_workers g !! n, g_ctx g with
    | Some (nd, Waiting _), Some e => (Ret (finish n nd (Some e) g), st)
    | _, _ => (Ret g, st)
    end
  | _ => (Ret g, st)
  end.

(** The moves of [group_step] that change something, as a relation
    labelled with the choice that is taken. *)
Inductive gstep : choice → group S * state W → group S * state W → Prop :=
| gs_cancel e g st :
    gstep (SCancel e) (g, st) (cancel_group e g, cancel_ctx e st)
| gs_arm n nd g st :
    g_workers g !! n = Some (nd, AtTop) →
    gstep (SStep (Worker n)) (g, st)
      (set_worker n nd (Waiting (interval (g_shared g))) g,
       emit (ETimer (Worker n) (interval (g_shared g))) st)
| gs_continue n nd d g st s st' :
    g_workers g !! n = Some (nd, Waiting d) →
    body n nd (g_shared g) st = (Ret (Continue, s), st') →
    gstep (SStep (Worker n)) (g, st)
      (set_shared s (set_worker n nd AtTop g), st')
| gs_stop n nd d g st s st' :
    g_workers g !! n = Some (nd, Waiting d) →
    body n nd (g_shared g) st = (Ret (Stop, s), st') →
    gstep (SStep (Worker n)) (g, st) (set_shared s (finish n nd None g), st')
| gs_fail n nd d g st e st' :
    g_workers g !! n = Some (nd, Waiting d) →
    body n nd (g_shared g) st = (Err e, st') →
    gstep (SStep (Worker n)) (g, st) (finish n nd (Some e) g, st')
| gs_done n nd d e g st :
    g_workers g !! n = Some (nd, Waiting d) →
    g_ctx g = Some e →
    gstep (SDone (Worker n)) (g, st) (finish n nd (Some e) g, st).

Definition all_returned (g : group S) : bool :=
  bool_decide (map_Forall (λ _ w, is_returned w.2 = true) (g_workers g)).

(** [g.Wait()]: the goroutines move as the schedule says until all have
    returned.  The group is handed back as the last step left it. *)
Fixpoint run_group (s : list choice) (g : group S) (st : state W)
    : outcome unit * group S * state W :=
  if all_returned g then (Ret tt, g, set_sched s st)
  else match s with
       | [] => (Pending, g, set_sched [] st)
       | c :: s' =>
         match group_step c g st with
         | (Ret g', st') => run_group s' g' st'
         | (Err e, st') => (Err e, g, set_sched s' st')
         | (Panic, st') => (Panic, g, set_sched s' st')
         | (Pending, st') => (Pending, g, set_sched s' st')
         end
       end.

(** [errgroup.WithContext] on the caller's context and one [g.Go] for every
    entry of the node map. *)
Definition spawn (s0 : S) (nodes : gmap string Node) (st : state W)
    : group S :=
  {| g_workers := (λ nd, (nd, AtTop)) <$> nodes; g_ctx := ctx st;
     g_err := None; g_shared := s0 |}.

(** The whole of [g, ctx := errgroup.WithContext(tctx); for ... { g.Go(...) };
    return g.Wait()]. *)
Definition fan_out (s0 : S) (nodes : gmap string Node) : M (W := W) unit :=
  λ st, match run_group (sched st) (spawn s0 nodes st) st with
        | (Ret _, g, st') =>
          match g_err g with
          | None => (Ret tt, st')
          | Some e => (Err e, st')
          end
        | (o, _, st') => (o, st')
        end.
End engine.

(** A [for { select { ... }; ... }] loop on the main goroutine, against the
    caller's context: [body] answers [None] to go round again. *)
Fixpoint main_loop {W A : Type} (d : Duration) (body : M (W := W) (option A))
    (s : list choice) (w : wstate) (st : state W) : outcome A * state W :=
  match s with
  | [] => (Pending, set_sched [] st)
  | c :: s' =>
    match c, w with
    | SCancel e, _ => main_loop d body s' w (cancel_ctx e st)
    | SStep Main, AtTop => main_loop d body s' (Waiting d) (emit (ETimer Main d) st)
    | SStep Main, Waiting _ =>
      match body st with
      | (Ret None, st') => main_loop d body s' AtTop st'
      | (Ret (Some a), st') => (Ret a, set_sched s' st')
      | (Err e, st') => (Err e, set_sched s' st')
      | (Panic, st') => (Panic, set_sched s' st')
      | (Pending, st') => (Pending, set_sched s' st')
      end
    | SDone Main, Waiting _ =>
      match ctx st with
      | Some e => (Err e, set_sched s' st)
      | None => main_loop d body s' w st
      end
    | _, _ => main_loop d body s' w st
    end
  end.

(** ** The functions of [subnet.go] that wait *)

Section waits.
Context {W : Type} (api : API W) (lib : Lib).

(** The goroutine of [createSubnet]. *)
Definition createSubnet_poll (subnetIDTx : ID) (name : string) (node : Node)
    (_ : unit) : M (W := W) (iter * unit) :=
  let client := GetAPIClient node in
  let* r := perform (Worker name) (CGetTxStatus client subnetIDTx true)
              (GetTxStatus api client subnetIDTx true) RTxStatus in
  let* status := try r in
  if decide (status = Committed) then
    let* _ := log Debug "subnet creation tx (%s) on (%s) accepted"
                [LID subnetIDTx; LStr name] in
    ret (Stop, tt)
  else
    let* _ := log Debug "waiting for subnet creation tx (%s) on (%s) to be accepted"
                [LID subnetIDTx; LStr name] in
    ret (Continue, tt).

(** createSubnet issues the CreateSubnet transaction and waits for
    it to be accepted. It returns an error if the transaction failed
    or there was a timout. *)
Definition createSubnet (a : args) : M (W := W) unit :=
  (* Create a subnet *)
  let* r := perform Main
              (CCreateSubnet (txPChainClient a) (userPass a) [fundedAddress a]
                 (fundedAddress a) [fundedAddress a] (defaultKeyThreshold lib))
              (CreateSubnet api (txPChainClient a) (userPass a) [fundedAddress a]
                 (fundedAddress a) [fundedAddress a] (defaultKeyThreshold lib))
              RTx in
  let* subnetIDTx := try_wrap "unable to create subnet" r in
  fan_out (λ _, apiRetryFreq lib) (createSubnet_poll subnetIDTx) tt (allNodes a).

(** The goroutine of [addAllAsValidators]. *)
Definition addValidator_poll (txID : ID) (nID : string) (checknode : Node)
    (_ : unit) : M (W := W) (iter * unit) :=
  let client := GetAPIClient checknode in
  let* r := perform (Worker nID) (CGetTxStatus client txID true)
              (GetTxStatus api client txID true) RTxStatus in
  let* status := try r in
  if decide (status = Committed) then
    let* _ := log Debug "add subnet validator (%s) tx (%s) accepted"
                [LStr nID; LID txID] in
    ret (Stop, tt)
  else
    let* _ := log Debug "waiting for add subnet validator (%s) tx (%s) to be accepted"
                [LStr nID; LID txID] in
    ret (Continue, tt).

(** The body of the [for _, node := range args.allNodes] loop of
    [addAllAsValidators], over the entries still to visit. *)
Fixpoint addAllAsValidators_loop (a : args) (subnetID : string)
    (l : list (string * Node)) : M (W := W) unit :=
  match l with
  | [] => ret tt
  | (_, node) :: l' =>
    let nodeID := PrefixedString lib NodeIDPrefix (GetNodeID node) in
    let* t1 := perform Main CNow (Now api) RNow in
    let* t2 := perform Main CNow (Now api) RNow in
    let startTime := unix_u64 t1 (validatorStartDiff lib) in
    let endTime := unix_u64 t2 (validatorEndDiff lib) in
    let* r := perform Main
                (CAddSubnetValidator (txPChainClient a) (userPass a)
                   [fundedAddress a] (fundedAddress a) subnetID nodeID
                   (validatorWeight lib) startTime endTime)
                (AddSubnetValidator api (txPChainClient a) (userPass a)
                   [fundedAddress a] (fundedAddress a) subnetID nodeID
                   (validatorWeight lib) startTime endTime)
                RTx in
    let* txID := try_wrap "unable to add subnet validator" r in
    let* _ := fan_out (λ _, apiRetryFreq lib) (addValidator_poll txID) tt
                (allNodes a) in
    addAllAsValidators_loop a subnetID l'
  end.

(** addAllAsValidators adds all nodes as validators to the given subnet
    and waits for each of the transactions to be accepted.
    Returns an error if any transaction failed or there was a timeout *)
Definition addAllAsValidators (a : args) (subnetID : string) : M (W := W) unit :=
  (* Add all validators to subnet with equal weight *)
  let* _ := addAllAsValidators_loop a subnetID (range_nodes api (allNodes a)) in
  log Info "all nodes added as subnet validators for subnet %s" [LStr subnetID].

(** One round of the loop of [createBlockchain] after its [select]. *)
Definition createBlockchain_poll (a : args) (txID : ID) : M (W := W) (option ID) :=
  let* r := perform Main (CGetTxStatus (txPChainClient a) txID true)
              (GetTxStatus api (txPChainClient a) txID true) RTxStatus in
  let* status := try r in
  if decide (status = Committed) then
    let* _ := log Info "create blockchain tx (%s) accepted" [LID txID] in
    ret (Some txID)
  else
    let* _ := log Debug "waiting for create blockchain tx (%s) to be accepted"
                [LID txID] in
    ret None.

(** createBlockchain performs the CreateBlockchain transaction and waits
    until the tx has been accepted or returns an error if this caused a
    problem or a timeout. *)
Definition createBlockchain (a : args) (vm : CustomVM) : M (W := W) ID :=
  (* Create blockchain *)
  let* r := perform Main (CReadFile (Genesis vm)) (ReadFile api (Genesis vm))
              RFile in
  let* genesis := try_wrap ("could not read genesis file (" +:+ Genesis vm +:+ ")") r in
  let* r := perform Main
              (CCreateBlockchain (txPChainClient a) (userPass a)
                 [fundedAddress a] (fundedAddress a) (rSubnetID a) (VMID vm)
                 [] (Name vm) genesis)
              (CreateBlockchain api (txPChainClient a) (userPass a)
                 [fundedAddress a] (fundedAddress a) (rSubnetID a) (VMID vm)
                 [] (Name vm) genesis)
              RTx in
  let* txID := try_wrap "could not create blockchain" r in
  λ st, main_loop (apiRetryFreq lib) (createBlockchain_poll a txID)
          (sched st) AtTop st.

(** The goroutine of [ensureValidating]; the shared variable is
    [statusCheckTimeout]. *)
Definition ensureValidating_poll (blockchainID : ID) (name : string)
    (node : Node) (statusCheckTimeout : Duration)
    : M (W := W) (iter * Duration) :=
  let nodeID := PrefixedString lib NodeIDPrefix (GetNodeID node) in
  let nClient := GetAPIClient node in
  let* r := perform (Worker name)
              (CGetBlockchainStatus nClient (ID_String lib blockchainID))
              (GetBlockchainStatus api nClient (ID_String lib blockchainID))
              RChainStatus in
  let* status := try_wrap "error querying blockchain status" r in
  if decide (status = Validating) then
    (* after the first acceptance, next nodes probably don't need to check
       that long anymore *)
    let statusCheckTimeout := apiRetryFreq lib in
    let* _ := log Info "%s validating blockchain %s"
                [LStr nodeID; LID blockchainID] in
    ret (Stop, statusCheckTimeout)
  else
    let* _ := log Debug "waiting for validating status for blockchainID %s on %s"
                [LStr (ID_String lib blockchainID); LStr nodeID] in
    ret (Continue, statusCheckTimeout).

(** ensureValidating returns an error if not all of the nodes are
    validating this blockchain or if waiting for nodes to confirm
    validation status times out. *)
Definition ensureValidating (allNodes : gmap string Node) (blockchainID : ID)
    : M (W := W) unit :=
  let statusCheckTimeout := longTimeout lib in
  (* Ensure all nodes are validating subnet *)
  fan_out (λ statusCheckTimeout, statusCheckTimeout)
    (ensureValidating_poll blockchainID) statusCheckTimeout allNodes.

(** The goroutine of [ensureBootstrapped]. *)
Definition ensureBootstrapped_poll (blockchainID : ID) (name : string)
    (node : Node) (_ : unit) : M (W := W) (iter * unit) :=
  let nodeID := PrefixedString lib NodeIDPrefix (GetNodeID node) in
  let nClient := GetAPIClient node in
  let* r := perform (Worker name)
              (CIsBootstrapped nClient (ID_String lib blockchainID))
              (IsBootstrapped api nClient (ID_String lib blockchainID))
              (λ r, RBoot r.1 r.2) in
  let '(bootstrapped, _) := r in
  if bootstrapped then
    let* _ := log Info "%s bootstrapped %s" [LStr nodeID; LID blockchainID] in
    ret (Stop, tt)
  else
    let* _ := log Debug "waiting for %s to bootstrap %s"
                [LStr nodeID; LStr (ID_String lib blockchainID)] in
    ret (Continue, tt).

(** ensureBootstrapped returns an error if not all nodes report the
    given blockchain as bootstrapped or if waiting for nodes to confirm
    the bootstrap status times out. *)
Definition ensureBootstrapped (allNodes : gmap string Node) (blockchainID : ID)
    : M (W := W) unit :=
  (* Ensure network bootstrapped *)
  fan_out (λ _, apiRetryFreq lib) (ensureBootstrapped_poll blockchainID) tt
    allNodes.

(** The endpoint lines of [finalizeBlockchain]. *)
Fixpoint print_endpoints (blockchainID : ID) (l : list (string * Node))
    : M (W := W) unit :=
  match l with
  | [] => ret tt
  | (_, n) :: l' =>
    let* _ := log Info "%s: %s:%d/ext/bc/%s"
                [LShortID (GetNodeID n); LStr (GetURL n); LInt (GetAPIPort n);
                 LStr (ID_String lib blockchainID)] in
    print_endpoints blockchainID l'
  end.

(** finalizeBlockchain is a checking function. It ensures that the given
    nodes are validating the blockchain, and that all nodes have the VM
    bootstrapped.  If all is ok, it prints the endpoints to STDOUT,
    otherwise it returns an error. *)
Definition finalizeBlockchain (allNodes : gmap string Node) (blockchainID : ID)
    : M (W := W) unit :=
  let* _ := wrapping "error checking all nodes are validating the blockchain"
              (ensureValidating allNodes blockchainID) in
  let* _ := wrapping "error checking blockchain is bootstrapped"
              (ensureBootstrapped allNodes blockchainID) in
  (* Print endpoints where VM is accessible *)
  let* _ := log Info "Custom VM endpoints now accessible at:" [] in
  print_endpoints blockchainID (range_nodes api allNodes).

(** SetupSubnet creates the necessary transactions to create a subnet for
    a given custom VM.  It then also waits until all these transactions
    are confirmed on all nodes.  Finally it creates a blockchain and makes
    sure all nodes of the given network are validating this blockchain.
    It requires a `privateKey` in order to issue the necessary
    transactions *)
Definition SetupSubnet (vm : CustomVM) (privateKey : string) : M (W := W) unit :=
  let* _ := log Info "creating subnet" [] in
  (* initialize necessary args for the API calls *)
  let* args := wrapping "failed initializing subnet"
                 (newArgs api lib vm privateKey) in
  (* create the subnet *)
  let* _ := wrapping "failed creating subnet" (createSubnet args) in
  let* _ := log Info "all nodes accepted subnet tx creation" [] in
  (* check the newly created subnet is in the subnet list *)
  let* _ := replacing
              (ErrNew "failed to confirm subnet is in the node's subnet list")
              (isSubnetInList api (txPChainClient args) (rSubnetID args)) in
  (* add all nodes as validators *)
  let* _ := wrapping "failed to add nodes as validators"
              (addAllAsValidators args (SubnetID vm)) in
  (* create the blockchain for this vm *)
  let* blockchainID := wrapping "failed creating blockchain"
                         (createBlockchain args vm) in
  (* make sure all nodes are validating this new blockchain *)
  let* _ := wrapping "error checking all nodes are validating subnet"
              (finalizeBlockchain (allNodes args) blockchainID) in
  ret tt.
End waits.

(** The events a run added to the trace. *)
Definition new_events {W : Type} (st st' : state W) : list event :=
  drop (length (trace st)) (trace st').

(** ** A scripted fleet

    A world for running the functions: every collaborator answers from a
    fixed script; the answer of a status query may depend on how many
    queries the client it is sent to has answered before.  The world is the
    number of queries answered by each client. *)
Record Script : Type := {
  s_nodes : res (gmap string Node);
  s_names : res (list string);
  s_user : bool * option error;
  s_addr : res string;
  s_subnet_tx : res ID;
  s_tx_status : Client → ID → nat → res Status;
  s_subnets : res (list APISubnet);
  s_validator_tx : string → res ID;
  s_file : string → res (list Byte.byte);
  s_chain_tx : res ID;
  s_chain_status : Client → nat → res BlockchainStatus;
  s_boot : Client → nat → bool * option error;
  s_now : Time
}.

Definition polls (w : gmap string nat) (c : Client) : nat := default 0%nat (w !! c).

Definition polled (c : Client) (w : gmap string nat) : gmap string nat :=
  <[c := S (polls w c)]> w.

Definition scripted (sc : Script) : API (gmap string nat) :=
  {| GetAllNodes := λ w, (s_nodes sc, w);
     GetNodeNames := λ w, (s_names sc, w);
     CreateUser := λ _ _ w, (s_user sc, w);
     ImportKey := λ _ _ _ w, (s_addr sc, w);
     CreateSubnet := λ _ _ _ _ _ _ w, (s_subnet_tx sc, w);
     GetTxStatus := λ c tx _ w, (s_tx_status sc c tx (polls w c), polled c w);
     GetSubnets := λ _ _ w, (s_subnets sc, w);
     AddSubnetValidator := λ _ _ _ _ _ nodeID _ _ _ w, (s_validator_tx sc nodeID, w);
     ReadFile := λ path w, (s_file sc path, w);
     CreateBlockchain := λ _ _ _ _ _ _ _ _ _ w, (s_chain_tx sc, w);
     GetBlockchainStatus := λ c _ w, (s_chain_status sc c (polls w c), polled c w);
     IsBootstrapped := λ c _ w, (s_boot sc c (polls w c), polled c w);
     Now := λ w, (s_now sc, w);
     range_nodes := map_to_list;
     range_nodes_perm := λ m, reflexivity (map_to_list m) |}.

(** One round of a schedule in which every goroutine named in [ks] arms its
    timer and polls once. *)
Definition round (ks : list string) : list choice :=
  ks ≫= λ n, [SStep (Worker n); SStep (Worker n)].

(** A schedule in which every goroutine named in [ks] is given the chance
    to see its context done. *)
Definition drain (ks : list string) : list choice :=
  ks ≫= λ n, [SDone (Worker n); SStep (Worker n); SDone (Worker n)].

Definition start (w : gmap string nat) (s : list choice) : state (gmap string nat) :=
  {| world := w; trace := []; ctx := None; sched := s |}.

(** ** Vocabulary of the statements *)

Definition is_log (ev : event) : Prop :=
  match ev with ELog _ _ _ => True | _ => False end.

(** The event is a call or a timer of the goroutine started for [n]. *)
Definition by_worker (n : string) (ev : event) : Prop :=
  match ev with
  | ECall w _ _ | ETimer w _ => w = Worker n
  | ELog _ _ _ => False
  end.

(** What a goroutine does on an answer: [None] to poll again, [Some r] to
    return [r]. *)
Definition decided {S : Type} (v : option (option error)) (s : S)
    : outcome (iter * S) :=
  match v with
  | None => Ret (Continue, s)
  | Some None => Ret (Stop, s)
  | Some (Some e) => Err e
  end.

(** A loop body that sends the one call [query n nd], reads the answer as
    [verdict] says and otherwise only logs. *)
Definition polls_with {W S : Type} (body : string → Node → S → M (W := W) (iter * S))
    (query : string → Node → call) (verdict : resp → option (option error))
    : Prop :=
  ∀ n nd sh st, ∃ r w' logs sh',
    body n nd sh st =
      (decided (verdict r) sh',
       {| world := w'; trace := trace st ++ ECall (Worker n) (query n nd) r :: logs;
          ctx := ctx st; sched := sched st |}) ∧
    Forall is_log logs.

(** A loop body returns or fails; it neither panics nor waits. *)
Definition body_total {W S : Type} (body : string → Node → S → M (W := W) (iter * S))
    : Prop :=
  ∀ n nd s st, match (body n nd s st).1 with
               | Panic | Pending => False
               | _ => True
               end.

(** The events of a fan-out over [nodes]: timers and queries of its
    goroutines, and log lines. *)
Definition fan_out_event (nodes : gmap string Node) (query : string → Node → call)
    (ev : event) : Prop :=
  match ev with
  | ETimer (Worker n) _ => is_Some (nodes !! n)
  | ECall (Worker n) c _ => ∃ nd, nodes !! n = Some nd ∧ c = query n nd
  | ELog _ _ _ => True
  | _ => False
  end.

(** The events after [t0] in the trace of [st]. *)
Definition news {W : Type} (t0 : list event) (st : state W) : list event :=
  drop (length t0) (trace st).

(** Once a goroutine has read an answer that makes it return, it adds no
    call and no timer to the trace. *)
Definition quiet_after_verdict (verdict : resp → option (option error))
    (t : list event) : Prop :=
  ∀ t1 n q r t2, t = t1 ++ ECall (Worker n) q r :: t2 →
    is_Some (verdict r) → Forall (λ ev, ¬ by_worker n ev) t2.

(** The state of an error group that was started over [nodes] when the
    trace was [t0]. *)
Record good {W S : Type} (query : string → Node → call)
    (verdict : resp → option (option error)) (t0 : list event)
    (nodes : gmap string Node) (x : group S * state W) : Prop := {
  good_dom : ∀ n, fst <$> (g_workers x.1 !! n) = nodes !! n;
  good_trace : trace x.2 = t0 ++ news t0 x.2;
  good_events : Forall (fan_out_event nodes query) (news t0 x.2);
  good_quiet : quiet_after_verdict verdict (news t0 x.2);
  good_verdict : ∀ n q r v, ECall (Worker n) q r ∈ news t0 x.2 →
    verdict r = Some v → ∃ nd, g_workers x.1 !! n = Some (nd, Returned v);
  good_nil : ∀ n nd, g_workers x.1 !! n = Some (nd, Returned None) →
    ∃ r, verdict r = Some None ∧ ECall (Worker n) (query n nd) r ∈ news t0 x.2;
  good_first : ∀ e, g_err x.1 = Some e →
    (∃ n nd r, nodes !! n = Some nd ∧ verdict r = Some (Some e) ∧
               ECall (Worker n) (query n nd) r ∈ news t0 x.2) ∨
    ctx x.2 = Some e;
  good_err : ∀ n nd e, g_workers x.1 !! n = Some (nd, Returned (Some e)) →
    is_Some (g_err x.1);
  good_culprit : is_Some (g_err x.1) →
    ∃ n nd e, g_workers x.1 !! n = Some (nd, Returned (Some e));
  good_ctx : g_err x.1 = None → g_ctx x.1 = ctx x.2;
  good_cancel : is_Some (g_err x.1) → is_Some (g_ctx x.1)
}.

(** The events one move of the goroutine for [n] adds, with the verdict on
    the answer it read, if it read one. *)
Inductive added (query : string → Node → call)
    (verdict : resp → option (option error)) (n : string) (nd : Node)
    : option (option error) → list event → Prop :=
| added_none : added query verdict n nd None []
| added_timer d : added query verdict n nd None [ETimer (Worker n) d]
| added_call r logs :
    Forall is_log logs →
    added query verdict n nd (verdict r)
      (ECall (Worker n) (query n nd) r :: logs).

(** The queries of the four fan-outs and what their goroutines make of the
    answers. *)
Definition tx_query (tx : ID) (n : string) (nd : Node) : call :=
  CGetTxStatus (GetAPIClient nd) tx true.

Definition tx_verdict (r : resp) : option (option error) :=
  match r with
  | RTxStatus (Fail e) => Some (Some e)
  | RTxStatus (Val Committed) => Some None
  | _ => None
  end.

Definition chain_query (lib : Lib) (blockchainID : ID) (n : string) (nd : Node)
    : call :=
  CGetBlockchainStatus (GetAPIClient nd) (ID_String lib blockchainID).

Definition chain_verdict (r : resp) : option (option error) :=
  match r with
  | RChainStatus (Fail e) => Some (Some (ErrWrap "error querying blockchain status" e))
  | RChainStatus (Val Validating) => Some None
  | _ => None
  end.

Definition boot_query (lib : Lib) (blockchainID : ID) (n : string) (nd : Node)
    : call :=
  CIsBootstrapped (GetAPIClient nd) (ID_String lib blockchainID).

Definition boot_verdict (r : resp) : option (option error) :=
  match r with
  | RBoot true _ => Some None
  | _ => None
  end.

(** The runs of [newArgs]: what it returns and what it adds to the trace. *)
Inductive newArgs_run (lib : Lib) (vm : CustomVM) (key : string)
    : outcome args → list event → Prop :=
| na_nodes_fail e :
    newArgs_run lib vm key (Err e) [ECall Main CGetAllNodes (RNodes (Fail e))]
| na_names_fail m e :
    newArgs_run lib vm key (Err e)
      [ECall Main CGetAllNodes (RNodes (Val m));
       ECall Main CGetNodeNames (RNames (Fail e))]
| na_names_empty m :
    newArgs_run lib vm key
      (Err (ErrNew "the array of node names is empty! Can't get any nodes"))
      [ECall Main CGetAllNodes (RNodes (Val m));
       ECall Main CGetNodeNames (RNames (Val []))]
| na_no_node m n ns :
    m !! n = None →
    newArgs_run lib vm key Panic
      [ECall Main CGetAllNodes (RNodes (Val m));
       ECall Main CGetNodeNames (RNames (Val (n :: ns)))]
| na_user_fail m n ns nd ok err :
    m !! n = Some nd →
    (ok, err) ≠ (true, None) →
    newArgs_run lib vm key
      (Err match err with
           | Some e => ErrWrap "could not create user" e
           | None => ErrWrapNil "could not create user"
           end)
      [ECall Main CGetAllNodes (RNodes (Val m));
       ECall Main CGetNodeNames (RNames (Val (n :: ns)));
       ECall Main (CCreateUser (GetAPIClient nd) (defaultUserPass lib))
         (RUser ok err)]
| na_import_fail m n ns nd e :
    m !! n = Some nd →
    newArgs_run lib vm key (Err (ErrWrap "unable to import genesis key" e))
      [ECall Main CGetAllNodes (RNodes (Val m));
       ECall Main CGetNodeNames (RNames (Val (n :: ns)));
       ECall Main (CCreateUser (GetAPIClient nd) (defaultUserPass lib))
         (RUser true None);
       ECall Main (CImportKey (GetAPIClient nd) (defaultUserPass lib) key)
         (RAddr (Fail e))]
| na_parse_fail m n ns nd addr e :
    m !! n = Some nd →
    ids_FromString lib (SubnetID vm) = Fail e →
    newArgs_run lib vm key (Err (ErrWrap "invalid subnetID string" e))
      [ECall Main CGetAllNodes (RNodes (Val m));
       ECall Main CGetNodeNames (RNames (Val (n :: ns)));
       ECall Main (CCreateUser (GetAPIClient nd) (defaultUserPass lib))
         (RUser true None);
       ECall Main (CImportKey (GetAPIClient nd) (defaultUserPass lib) key)
         (RAddr (Val addr))]
| na_ok m n ns nd addr id :
    m !! n = Some nd →
    ids_FromString lib (SubnetID vm) = Val id →
    newArgs_run lib vm key
      (Ret {| txPChainClient := GetAPIClient nd; fundedAddress := addr;
              userPass := defaultUserPass lib; allNodes := m;
              rSubnetID := id |})
      [ECall Main CGetAllNodes (RNodes (Val m));
       ECall Main CGetNodeNames (RNames (Val (n :: ns)));
       ECall Main (CCreateUser (GetAPIClient nd) (defaultUserPass lib))
         (RUser true None);
       ECall Main (CImportKey (GetAPIClient nd) (defaultUserPass lib) key)
         (RAddr (Val addr))].

(** The error a group will return in the end is [e]: it has it already, or
    its context was cancelled with it and a goroutine is still running. *)
Definition first_err {S : Type} (g : group S) (e : error) : Prop :=
  g_err g = Some e ∨ (g_err g = None ∧ g_ctx g = Some e ∧ all_returned g = false).

(** The goroutine for [n] has not returned. *)
Definition active {S : Type} (g : group S) (n : string) : Prop :=
  ∃ nd ws, g_workers g !! n = Some (nd, ws) ∧ is_returned ws = false.

(** How often the schedule lets the goroutine for [n] move on. *)
Fixpoint steps_of (n : string) (s : list choice) : nat :=
  match s with
  | [] => 0
  | SStep (Worker m) :: s' =>
    if decide (m = n) then S (steps_of n s') else steps_of n s'
  | _ :: s' => steps_of n s'
  end.

(** The schedule never cancels the caller's context. *)
Definition no_cancel (s : list choice) : Prop :=
  Forall (λ c, match c with SCancel _ => False | _ => True end) s.

(** From its [K]-th query on, the client of the node answers that the
    chain is bootstrapped. *)
Definition ready (sc : Script) (K : nat) (nd : Node) : Prop :=
  ∀ i, (K ≤ i)%nat → (s_boot sc (GetAPIClient nd) i).1 = true.

(** The moves a goroutine of the bootstrap wait needs at most before it
    returns, on a node that is ready from its [K]-th query on. *)
Definition need (K : nat) (w : gmap string nat) (nd : Node) (ws : wstate) : nat :=
  match ws with
  | AtTop => 2 * (K - polls w (GetAPIClient nd)) + 2
  | Waiting _ => 2 * (K - polls w (GetAPIClient nd)) + 1
  | Returned _ => 0
  end.

(** The schedule [s] is long enough for the bootstrap wait in state [g],
    [st]. *)
Definition fit (sc : Script) (K : nat) (s : list choice) (g : group unit)
    (st : state (gmap string nat)) : Prop :=
  g_err g = None ∧ g_ctx g = None ∧
  ∀ n nd ws, g_workers g !! n = Some (nd, ws) →
    (need K (world st) nd ws ≤ steps_of n s)%nat ∧ ready sc K nd ∧
    ∀ r, ws = Returned r → r = None.

(** The event is a status query answered with Validating. *)
Definition is_validating (ev : event) : bool :=
  match ev with
  | ECall _ _ (RChainStatus (Val Validating)) => true
  | _ => false
  end.

Definition validating_seen (t : list event) : bool := existsb is_validating t.

(** The value of [statusCheckTimeout] after the events [t]. *)
Definition pace (lib : Lib) (t : list event) : Duration :=
  if validating_seen t then apiRetryFreq lib else longTimeout lib.

(** Every timer has the duration [statusCheckTimeout] had when it was
    armed. *)
Definition timers_paced (lib : Lib) (t : list event) : Prop :=
  ∀ t1 w d t2, t = t1 ++ ETimer w d :: t2 → d = pace lib t1.

Definition is_timer (ev : event) : Prop :=
  match ev with ETimer _ _ => True | _ => False end.

(** What the validating wait keeps, started when the trace was [t0]. *)
Record paced {W : Type} (lib : Lib) (t0 : list event)
    (x : group Duration * state W) : Prop := {
  paced_trace : trace x.2 = t0 ++ news t0 x.2;
  paced_shared : g_shared x.1 = pace lib (news t0 x.2);
  paced_timers : timers_paced lib (news t0 x.2)
}.


(** The events of the loop of [createBlockchain]. *)
Definition issuer_poll_event (lib : Lib) (a : args) (tx : ID) (ev : event) : Prop :=
  match ev with
  | ETimer Main d => d = apiRetryFreq lib
  | ECall Main c _ => c = CGetTxStatus (txPChainClient a) tx true
  | ELog _ _ _ => True
  | _ => False
  end.


(** The node a register-as-validator submission is for. *)
Definition submit_node (ev : event) : option string :=
  match ev with
  | ECall _ (CAddSubnetValidator _ _ _ _ _ nodeID _ _ _) _ => Some nodeID
  | _ => None
  end.

Definition submitted (t : list event) : list string := omap submit_node t.

(** The submission answered [r] is committed on every node of [nodes] in
    the events [t]: each goroutine has read Committed for its
    transaction. *)
Definition confirmed (nodes : gmap string Node) (r : resp) (t : list event) : Prop :=
  ∃ tx, r = RTx (Val tx) ∧
    ∀ n nd, nodes !! n = Some nd →
      ECall (Worker n) (tx_query tx n nd) (RTxStatus (Val Committed)) ∈ t.

(** Between two submissions the earlier one is confirmed. *)
Definition sequential (nodes : gmap string Node) (t : list event) : Prop :=
  ∀ t1 w1 c1 r1 t2 ev2 t3,
    t = t1 ++ ECall w1 c1 r1 :: t2 ++ ev2 :: t3 →
    is_Some (submit_node (ECall w1 c1 r1)) → is_Some (submit_node ev2) →
    confirmed nodes r1 t2.

(** Every submission is confirmed by the end of the events. *)
Definition all_confirmed (nodes : gmap string Node) (t : list event) : Prop :=
  ∀ t1 w1 c1 r1 t2,
    t = t1 ++ ECall w1 c1 r1 :: t2 →
    is_Some (submit_node (ECall w1 c1 r1)) →
    confirmed nodes r1 t2.

(** The identifier [addAllAsValidators] submits for an entry of the map. *)
Definition node_id_of (lib : Lib) (x : string * Node) : string :=
  PrefixedString lib NodeIDPrefix (GetNodeID x.2).

(** Every status query answers Committed. *)
Definition always_committed {W : Type} (api : API W) : Prop :=
  ∀ c tx w, ∃ w', GetTxStatus api c tx true w = (Val Committed, w').

(** Every register-as-validator submission is accepted. *)
Definition always_accepts {W : Type} (api : API W) : Prop :=
  ∀ c up from change sid nodeID weight s e w,
    ∃ tx w', AddSubnetValidator api c up from change sid nodeID weight s e w
             = (Val tx, w').

(** The format of the endpoint lines of [finalizeBlockchain]. *)
Definition endpoint_format : string := "%s: %s:%d/ext/bc/%s".

(** The event is a create-chain submission. *)
Definition is_create (ev : event) : bool :=
  match ev with
  | ECall _ (CCreateBlockchain _ _ _ _ _ _ _ _ _) _ => true
  | _ => false
  end.

(** The chain identifier a status query of the finalization or an
    endpoint line carries. *)
Definition chain_of (ev : event) : option string :=
  match ev with
  | ECall _ (CGetBlockchainStatus _ s) _ => Some s
  | ECall _ (CIsBootstrapped _ s) _ => Some s
  | ELog _ f [_; _; _; LStr s] =>
    if decide (f = endpoint_format) then Some s else None
  | _ => None
  end.

Fixpoint count_creates (t : list event) : nat :=
  match t with
  | [] => 0
  | ev :: t' => (if is_create ev then 1 else 0) + count_creates t'
  end.

(** The event has to do with no chain. *)
Definition plain (ev : event) : Prop :=
  chain_of ev = None ∧ is_create ev = false.

(** The event creates no chain and carries no other chain identifier than
    that of [b]. *)
Definition about (lib : Lib) (b : ID) (ev : event) : Prop :=
  is_create ev = false ∧ ∀ s, chain_of ev = Some s → s = ID_String lib b.

(** The events of [finalizeBlockchain] over [nodes] for the chain [b]. *)
Definition finalize_event (lib : Lib) (nodes : gmap string Node) (b : ID)
    (ev : event) : Prop :=
  match ev with
  | ETimer (Worker n) _ => is_Some (nodes !! n)
  | ECall (Worker n) c _ =>
    ∃ nd, nodes !! n = Some nd ∧ (c = chain_query lib b n nd ∨ c = boot_query lib b n nd)
  | ELog _ f args =>
    f = endpoint_format →
    ∃ nd, args = [LShortID (GetNodeID nd); LStr (GetURL nd); LInt (GetAPIPort nd);
                  LStr (ID_String lib b)]
  | _ => False
  end.

(** Every chain identifier in the events is that of the transaction a
    create-chain submission of the events returned, and there is at most
    one such submission. *)
Definition chain_bound (lib : Lib) (t : list event) : Prop :=
  (∀ ev s, ev ∈ t → chain_of ev = Some s →
     ∃ w c tx, ECall w c (RTx (Val tx)) ∈ t ∧
               is_create (ECall w c (RTx (Val tx))) = true ∧
               s = ID_String lib tx) ∧
  (count_creates t ≤ 1)%nat.

(** The computation adds events of the kind [P] to the trace. *)
Definition adds {W A : Type} (P : event → Prop) (m : M (W := W) A) : Prop :=
  ∀ st o st', m st = (o, st') → ∃ evs, trace st' = trace st ++ evs ∧ Forall P evs.

(** The event is no endpoint line. *)
Definition not_endpoint (ev : event) : Prop :=
  match ev with
  | ELog _ f _ => f ≠ endpoint_format
  | _ => True
  end.

(** The stages of [SetupSubnet] before the chain is created. *)
Definition setup_prelude {W : Type} (api : API W) (lib : Lib) (vm : CustomVM)
    (privateKey : string) : M (W := W) args :=
  let* _ := log Info "creating subnet" [] in
  let* args := wrapping "failed initializing subnet"
                 (newArgs api lib vm privateKey) in
  let* _ := wrapping "failed creating subnet" (createSubnet api lib args) in
  let* _ := log Info "all nodes accepted subnet tx creation" [] in
  let* _ := replacing
              (ErrNew "failed to confirm subnet is in the node's subnet list")
              (isSubnetInList api (txPChainClient args) (rSubnetID args)) in
  let* _ := wrapping "failed to add nodes as validators"
              (addAllAsValidators api lib args (SubnetID vm)) in
  ret args.

(** ** A fleet of two nodes *)

Module Demo.
Definition node1 : Node :=
  {| GetNodeID := 1%N; GetURL := "http://127.0.0.1"; GetAPIPort := 9650;
     GetAPIClient := "c1" |}.
Definition node2 : Node :=
  {| GetNodeID := 2%N; GetURL := "http://127.0.0.1"; GetAPIPort := 9652;
     GetAPIClient := "c2" |}.
Definition fleet : gmap string Node :=
  <["node1" := node1]> (<["node2" := node2]> ∅).

(** The empty string is no identifier: its decoding is shorter than the
    checksum. *)
Definition lib : Lib :=
  {| ids_FromString := λ s, if decide (s = "") then Fail (ExtErr "invalid hash length")
                            else Val 7%N;
     ID_String := λ _, "chain"; ShortID_String := λ _, "short";
     defaultUserPass := {| Username := "user"; Password := "pass" |};
     defaultKeyThreshold := 1; validatorWeight := 3000;
     validatorStartDiff := 30000000000; validatorEndDiff := 100000000000;
     apiRetryFreq := 1000000000; longTimeout := 10000000000 |}.

Definition vm : CustomVM :=
  {| Path := "/vm"; Genesis := "/genesis"; Name := "vm"; SubnetID := "subnet";
     VMID := "vmid" |}.

Definition vm_no_subnet : CustomVM :=
  {| Path := "/vm"; Genesis := "/genesis"; Name := "vm"; SubnetID := "";
     VMID := "vmid" |}.

(** Every node reports a transaction committed on the second query,
    validates at once and answers the first two bootstrap queries with an
    error.  The subnet list of the issuing node is empty. *)
Definition good : Script :=
  {| s_nodes := Val fleet; s_names := Val ["node1"; "node2"];
     s_user := (true, None); s_addr := Val "P-addr"; s_subnet_tx := Val 7%N;
     s_tx_status := λ _ _ i, Val (if decide (i = 0)%nat then Processing else Committed);
     s_subnets := Val [];
     s_validator_tx := λ n, Val 8%N;
     s_file := λ _, Val [];
     s_chain_tx := Val 9%N;
     s_chain_status := λ _ _, Val Validating;
     s_boot := λ _ i, if decide (i < 2)%nat then (false, Some (ExtErr "unreachable"))
                      else (true, None);
     s_now := 0 |}.

(** The same with a fleet handle that lists a name and has no node. *)
Definition no_nodes : Script :=
  {| s_nodes := Val ∅; s_names := Val ["node1"];
     s_user := s_user good; s_addr := s_addr good;
     s_subnet_tx := s_subnet_tx good; s_tx_status := s_tx_status good;
     s_subnets := s_subnets good; s_validator_tx := s_validator_tx good;
     s_file := s_file good; s_chain_tx := s_chain_tx good;
     s_chain_status := s_chain_status good; s_boot := s_boot good;
     s_now := s_now good |}.

(** The same with nodes that report every transaction committed at
    once. *)
Definition prompt : Script :=
  {| s_nodes := s_nodes good; s_names := s_names good;
     s_user := s_user good; s_addr := s_addr good;
     s_subnet_tx := s_subnet_tx good; s_tx_status := λ _ _ _, Val Committed;
     s_subnets := s_subnets good; s_validator_tx := s_validator_tx good;
     s_file := s_file good; s_chain_tx := s_chain_tx good;
     s_chain_status := s_chain_status good; s_boot := s_boot good;
     s_now := s_now good |}.

(** The same with nodes that are also bootstrapped at once. *)
Definition eager : Script :=
  {| s_nodes := s_nodes good; s_names := s_names good;
     s_user := s_user good; s_addr := s_addr good;
     s_subnet_tx := s_subnet_tx good; s_tx_status := λ _ _ _, Val Committed;
     s_subnets := s_subnets good; s_validator_tx := s_validator_tx good;
     s_file := s_file good; s_chain_tx := s_chain_tx good;
     s_chain_status := s_chain_status good; s_boot := λ _ _, (true, None);
     s_now := s_now good |}.

(** The same with nodes on which every transaction was aborted. *)
Definition stalled : Script :=
  {| s_nodes := s_nodes good; s_names := s_names good;
     s_user := s_user good; s_addr := s_addr good;
     s_subnet_tx := s_subnet_tx good; s_tx_status := λ _ _ _, Val Aborted;
     s_subnets := s_subnets good; s_validator_tx := s_validator_tx good;
     s_file := s_file good; s_chain_tx := s_chain_tx good;
     s_chain_status := s_chain_status good; s_boot := s_boot good;
     s_now := s_now good |}.

(** The same with nodes that go on syncing the chain. *)
Definition syncing : Script :=
  {| s_nodes := s_nodes good; s_names := s_names good;
     s_user := s_user good; s_addr := s_addr good;
     s_subnet_tx := s_subnet_tx good; s_tx_status := s_tx_status good;
     s_subnets := s_subnets good; s_validator_tx := s_validator_tx good;
     s_file := s_file good; s_chain_tx := s_chain_tx good;
     s_chain_status := λ _ _, Val Syncing; s_boot := s_boot good;
     s_now := s_now good |}.

(** The same with nodes whose info endpoint is never reached. *)
Definition unreachable : Script :=
  {| s_nodes := s_nodes good; s_names := s_names good;
     s_user := s_user good; s_addr := s_addr good;
     s_subnet_tx := s_subnet_tx good; s_tx_status := s_tx_status good;
     s_subnets := s_subnets good; s_validator_tx := s_validator_tx good;
     s_file := s_file good; s_chain_tx := s_chain_tx good;
     s_chain_status := s_chain_status good;
     s_boot := λ _ _, (false, Some (ExtErr "unreachable"));
     s_now := s_now good |}.

(** The same with an issuing node that fails to list its subnets. *)
Definition no_list : Script :=
  {| s_nodes := s_nodes good; s_names := s_names good;
     s_user := s_user good; s_addr := s_addr good;
     s_subnet_tx := s_subnet_tx good; s_tx_status := s_tx_status good;
     s_subnets := Fail (ExtErr "timeout"); s_validator_tx := s_validator_tx good;
     s_file := s_file good; s_chain_tx := s_chain_tx good;
     s_chain_status := s_chain_status good; s_boot := s_boot good;
     s_now := s_now good |}.

Definition a : args :=
  {| txPChainClient := "c1"; fundedAddress := "P-addr";
     userPass := defaultUserPass lib; allNodes := fleet; rSubnetID := 7%N |}.

(** Arguments with no node at all. *)
Definition nobody : args :=
  {| txPChainClient := "c1"; fundedAddress := "P-addr";
     userPass := defaultUserPass lib; allNodes := ∅; rSubnetID := 7%N |}.

Definition names : list string := ["node1"; "node2"].

(** A schedule for a whole run of [SetupSubnet] on [good]: two rounds for
    the subnet, one for each validator, two moves of the main goroutine for
    the chain, one round for each wait of the finalization. *)
Definition schedule : list choice :=
  round names ++ round names ++ round names ++ round names ++
  [SStep Main; SStep Main] ++ round names ++ round names.
End Demo.

(** * Facts *)

(** ** Traces *)

Lemma new_events_app {W} (st st' : state W) t :
  trace st' = trace st ++ t → new_events st st' = t.
Proof. intros E. unfold new_events. rewrite E. apply drop_app_length. Qed.

(** ** The error group *)

Section engine_facts.
Context {W S : Type}.
Variable interval : S → Duration.
Variable body : string → Node → S → M (W := W) (iter * S).

Lemma group_step_gstep c g st o st' :
  body_total body →
  group_step interval body c g st = (o, st') →
  ∃ g', o = Ret g' ∧ ((g', st') = (g, st) ∨ gstep interval body c (g, st) (g', st')).
Proof.
  intros Hb. unfold group_step. destruct c as [[|n]|[|n]|e]; intros E.
  - simplify_eq. eauto.
  - destruct (g_workers g !! n) as [[nd [|d|r]]|] eqn:En.
    + simplify_eq. eexists. split; [done|]. right. by constructor.
    + specialize (Hb n nd (g_shared g) st).
      destruct (body n nd (g_shared g) st) as [[[[]]| | |] st1] eqn:Eb;
        simpl in Hb; try done; simplify_eq; eexists; (split; [done|]); right.
      * by eapply gs_continue.
      * by eapply gs_stop.
      * by eapply gs_fail.
    + simplify_eq. eauto.
    + simplify_eq. eauto.
  - simplify_eq. eauto.
  - destruct (g_workers g !! n) as [[nd [|d|r]]|] eqn:En;
      [| destruct (g_ctx g) as [e|] eqn:Ec | |]; simplify_eq; eauto.
    eexists. split; [done|]. right. by eapply gs_done.
  - simplify_eq. eexists. split; [done|]. right. constructor.
Qed.

(** What holds at the start and is kept by every move holds when the wait
    is over or the schedule is used up. *)
Lemma run_group_inv (I : group S * state W → Prop) s g st o g' st' :
  body_total body →
  (∀ c x y, c ∈ s → I x → gstep interval body c x y → I y) →
  (∀ g st s, I (g, st) → I (g, set_sched s st)) →
  I (g, st) →
  run_group interval body s g st = (o, g', st') →
  I (g', st') ∧
  (o = Ret tt ∧ all_returned g' = true ∨ o = Pending ∧ all_returned g' = false).
Proof.
  intros Hb Hstep Hsched. revert g st.
  induction s as [|c s IH]; intros g st HI; simpl.
  - destruct (all_returned g) eqn:Ea; intros ?; simplify_eq; split; eauto.
  - destruct (all_returned g) eqn:Ea.
    { intros ?; simplify_eq; split; eauto. }
    destruct (group_step interval body c g st) as [o1 st1] eqn:Es.
    destruct (group_step_gstep _ _ _ _ _ Hb Es) as (g1 & -> & [?|Hg]).
    + simplify_eq. apply IH; [|done].
      intros c' x y Hc. apply Hstep. by right.
    + apply IH.
      * intros c' x y Hc. apply Hstep. by right.
      * eapply (Hstep c); [by left|done..].
Qed.
End engine_facts.

(** ** What every fan-out keeps *)

Lemma news_app {W} t0 (st st' : state W) evs :
  trace st = t0 ++ news t0 st →
  trace st' = trace st ++ evs →
  news t0 st' = news t0 st ++ evs ∧ trace st' = t0 ++ news t0 st'.
Proof.
  intros E E'. unfold news in *. rewrite E', E.
  rewrite <- app_assoc, !drop_app_length. done.
Qed.

Lemma news_start {W} (st : state W) :
  news (trace st) st = [] ∧ trace st = trace st ++ news (trace st) st.
Proof. unfold news. rewrite drop_all, app_nil_r. done. Qed.

Lemma snoc_split {A} (l : list A) x t1 y t2 :
  l ++ [x] = t1 ++ y :: t2 →
  (t2 = [] ∧ l = t1 ∧ x = y) ∨ (∃ t2', t2 = t2' ++ [x] ∧ l = t1 ++ y :: t2').
Proof.
  destruct t2 as [|z t2 _] using rev_ind; intros E.
  - left. apply app_inj_tail in E as [-> ->]. done.
  - right. exists t2.
    rewrite app_comm_cons, app_assoc in E. apply app_inj_tail in E as [-> ->]. done.
Qed.

Lemma quiet_snoc verdict t ev :
  quiet_after_verdict verdict t →
  (∀ n q r, ECall (Worker n) q r ∈ t → is_Some (verdict r) → ¬ by_worker n ev) →
  quiet_after_verdict verdict (t ++ [ev]).
Proof.
  intros Hq Hev t1 n q r t2 E Hv.
  apply snoc_split in E as [(-> & _ & _)|(t2' & -> & ->)]; [constructor|].
  apply Forall_app. split; [by eapply Hq|].
  constructor; [|constructor]. eapply (Hev n q r); [|done].
  apply elem_of_app. right. left.
Qed.

Lemma quiet_logs verdict t logs :
  quiet_after_verdict verdict t → Forall is_log logs →
  quiet_after_verdict verdict (t ++ logs).
Proof.
  intros Hq. induction logs as [|ev logs IH] using rev_ind; intros Hl.
  - by rewrite app_nil_r.
  - apply Forall_app in Hl as [Hl Hev]. rewrite Forall_singleton in Hev.
    rewrite app_assoc. apply quiet_snoc; [by apply IH|].
    intros n _ _ _ _. destruct ev; simpl in *; tauto.
Qed.

Section finish_facts.
Context {S : Type}.
Implicit Types g : group S.

Lemma finish_workers n nd r g :
  g_workers (finish n nd r g) = <[n := (nd, Returned r)]> (g_workers g).
Proof. unfold finish. simpl. destruct r, (g_err g); done. Qed.

Lemma finish_err n nd r g :
  g_err (finish n nd r g) = match g_err g with Some e0 => Some e0 | None => r end.
Proof. unfold finish. simpl. destruct r, (g_err g) eqn:E; simpl; rewrite ?E; done. Qed.

Lemma finish_ctx n nd r g :
  g_ctx (finish n nd r g) =
    match r, g_err g, g_ctx g with
    | Some _, None, None => Some ErrCanceled
    | _, _, c => c
    end.
Proof.
  unfold finish. simpl.
  destruct r, (g_err g) eqn:E, (g_ctx g) eqn:E'; simpl; rewrite ?E'; done.
Qed.

Lemma finish_shared n nd r g : g_shared (finish n nd r g) = g_shared g.
Proof. unfold finish. simpl. destruct r, (g_err g); done. Qed.

Lemma finish_lookup n nd r g m :
  g_workers (finish n nd r g) !! m =
    if decide (n = m) then Some (nd, Returned r) else g_workers g !! m.
Proof. rewrite finish_workers. apply lookup_insert. Qed.
End finish_facts.

Section good_facts.
Context {W S : Type}.
Variable interval : S → Duration.
Variable body : string → Node → S → M (W := W) (iter * S).
Variable query : string → Node → call.
Variable verdict : resp → option (option error).
Hypothesis Hbody : polls_with body query verdict.
Variable nodes : gmap string Node.
Implicit Types (g : group S) (st : state W) (sh : S).

Lemma polls_with_total : body_total body.
Proof.
  intros n nd s st.
  destruct (Hbody n nd s st) as (r & w' & logs & sh' & -> & _).
  simpl. destruct (verdict r) as [[]|]; done.
Qed.

Lemma good_spawn (s0 : S) (st : state W) :
  good query verdict (trace st) nodes (spawn s0 nodes st, st).
Proof.
  destruct (news_start st) as [En Et].
  split; simpl; rewrite ?En; try done.
  - intros n. rewrite lookup_fmap. by destruct (nodes !! n).
  - by rewrite app_nil_r.
  - intros t1 n q r t2 E. by destruct t1.
  - intros n q r v Hin. by apply elem_of_nil in Hin.
  - intros n nd. rewrite lookup_fmap. by destruct (nodes !! n).
  - intros n nd e. rewrite lookup_fmap. by destruct (nodes !! n).
Qed.

Lemma good_set_shared t0 sh g st :
  good query verdict t0 nodes (g, st) →
  good query verdict t0 nodes (set_shared sh g, st).
Proof. intros []. by split. Qed.

Lemma good_set_sched t0 s g st :
  good query verdict t0 nodes (g, st) →
  good query verdict t0 nodes (g, set_sched s st).
Proof. intros []. by split. Qed.

Lemma good_added t0 g st st' n nd ws v evs :
  good query verdict t0 nodes (g, st) →
  g_workers g !! n = Some (nd, ws) → is_returned ws = false →
  trace st' = trace st ++ evs →
  added query verdict n nd v evs →
  trace st' = t0 ++ news t0 st' ∧
  news t0 st' = news t0 st ++ evs ∧
  Forall (fan_out_event nodes query) (news t0 st') ∧
  quiet_after_verdict verdict (news t0 st') ∧
  (∀ m q r v', ECall (Worker m) q r ∈ news t0 st' → verdict r = Some v' →
     (m = n ∧ v = Some v') ∨
     (m ≠ n ∧ ∃ nd', g_workers g !! m = Some (nd', Returned v'))).
Proof.
  intros [Hdom Htr Hev Hq Hv _ _ _ _ _ _] Hn Hws E Hadd. simpl in *.
  destruct (news_app t0 st st' evs Htr E) as [En Et].
  assert (Hnd : nodes !! n = Some nd).
  { by rewrite <- Hdom, Hn. }
  assert (Hactive : ∀ q r, ECall (Worker n) q r ∈ news t0 st →
                           is_Some (verdict r) → False).
  { intros q r Hin [v' Hv']. destruct (Hv n q r v' Hin Hv') as [nd' E'].
    rewrite E' in Hn. by simplify_eq. }
  split; [done|]. split; [done|]. rewrite En.
  split; [|split].
  - apply Forall_app. split; [done|].
    destruct Hadd as [|d|r logs Hl]; repeat constructor; simpl; eauto.
    eapply Forall_impl; [done|]. by intros [].
  - destruct Hadd as [|d|r logs Hl].
    + by rewrite app_nil_r.
    + apply quiet_snoc; [done|]. intros m q r Hin Hs [= ->]. eauto.
    + rewrite (assoc_L _ _ [_] logs : news t0 st ++ ECall (Worker n) (query n nd) r :: logs = (news t0 st ++ [ECall (Worker n) (query n nd) r]) ++ logs).
      apply quiet_logs; [|done].
      apply quiet_snoc; [done|]. intros m q r' Hin Hs [= ->]. eauto.
  - intros m q r v' Hin Hv'. apply elem_of_app in Hin as [Hin|Hin].
    + right. split; [|by eapply Hv]. intros ->. eapply Hactive; eauto.
    + left. destruct Hadd as [|d|r' logs Hl].
      * by apply elem_of_nil in Hin.
      * apply list_elem_of_singleton in Hin. done.
      * apply elem_of_cons in Hin as [Hin|Hin]; [by simplify_eq|].
        rewrite Forall_forall in Hl. by apply Hl in Hin.
Qed.

Lemma good_keep t0 g st st' n nd ws ws' evs :
  good query verdict t0 nodes (g, st) →
  g_workers g !! n = Some (nd, ws) → is_returned ws = false →
  is_returned ws' = false →
  trace st' = trace st ++ evs → ctx st' = ctx st →
  added query verdict n nd None evs →
  good query verdict t0 nodes (set_worker n nd ws' g, st').
Proof.
  intros Hg Hn Hws Hws' E Ec Hadd.
  destruct (good_added _ _ _ _ _ _ _ _ _ Hg Hn Hws E Hadd)
    as (Ht & En & Hev & Hq & Hv).
  destruct Hg as [Hdom _ _ _ _ Hnil Hfirst Herr Hcul Hctx Hcancel]. simpl in *.
  split; simpl; try done.
  - intros m. rewrite lookup_insert. case_decide; [|done].
    subst. by rewrite <- Hdom, Hn.
  - intros m q r v' Hin Hv'.
    destruct (Hv m q r v' Hin Hv') as [[_ ?]|[Hne [nd' ?]]]; [done|].
    exists nd'. by rewrite lookup_insert_ne.
  - intros m nd'. rewrite lookup_insert. case_decide.
    + intros [= <- ->]. done.
    + intros Hm. destruct (Hnil m nd' Hm) as (r & ? & Hin).
      exists r. split; [done|]. rewrite En. apply elem_of_app. by left.
  - intros e He. destruct (Hfirst e He) as [(m & nd' & r & ? & ? & Hin)|?].
    + left. exists m, nd', r. split_and!; [done..|].
      rewrite En. apply elem_of_app. by left.
    + right. congruence.
  - intros m nd' e. rewrite lookup_insert. case_decide.
    + intros [= <- ->]. done.
    + apply Herr.
  - intros He. destruct (Hcul He) as (m & nd' & e & Hm). exists m, nd', e.
    rewrite lookup_insert_ne; [done|]. intros ->. rewrite Hm in Hn.
    by simplify_eq.
  - intros He. rewrite Ec. by apply Hctx.
Qed.

Lemma good_finish t0 g st st' n nd ws v r0 evs :
  good query verdict t0 nodes (g, st) →
  g_workers g !! n = Some (nd, ws) → is_returned ws = false →
  trace st' = trace st ++ evs → ctx st' = ctx st →
  added query verdict n nd v evs →
  v = Some r0 ∨ (v = None ∧ ∃ e, r0 = Some e ∧ g_ctx g = Some e) →
  good query verdict t0 nodes (finish n nd r0 g, st').
Proof.
  intros Hg Hn Hws E Ec Hadd Hr.
  destruct (good_added _ _ _ _ _ _ _ _ _ Hg Hn Hws E Hadd)
    as (Ht & En & Hev & Hq & Hv).
  destruct Hg as [Hdom _ _ _ _ Hnil Hfirst Herr Hcul Hctx Hcancel]. simpl in *.
  assert (Hnd : nodes !! n = Some nd) by (by rewrite <- Hdom, Hn).
  split; simpl; try done.
  - intros m. rewrite finish_lookup. case_decide; [|done]. by subst.
  - intros m q r v' Hin Hv'. rewrite finish_lookup.
    destruct (Hv m q r v' Hin Hv') as [[-> ->]|[Hne [nd' ?]]].
    + rewrite decide_True by done. exists nd.
      destruct Hr as [[= ->]|[? _]]; [done|by simplify_eq].
    + rewrite decide_False by done. eauto.
  - intros m nd'. rewrite finish_lookup. case_decide.
    + intros [= <- ->]. subst m.
      destruct Hr as [->|(_ & e & ? & _)]; [|by simplify_eq].
      inversion Hadd as [| |r logs Hl Hv' Hevs]. subst evs.
      exists r. split; [done|]. rewrite En. apply elem_of_app. right. left.
    + intros Hm. destruct (Hnil m nd' Hm) as (r & ? & Hin).
      exists r. split; [done|]. rewrite En. apply elem_of_app. by left.
  - intros e. rewrite finish_err. destruct (g_err g) as [e0|] eqn:Ee.
    + intros [= ->]. destruct (Hfirst e eq_refl) as [(m & nd' & r & ? & ? & Hin)|?].
      * left. exists m, nd', r. split_and!; [done..|].
        rewrite En. apply elem_of_app. by left.
      * right. congruence.
    + intros ->. destruct Hr as [->|(_ & e' & [= ->] & Hc)].
      * left. inversion Hadd as [| |r logs Hl Hv' Hevs]. subst evs.
        exists n, nd, r. split_and!; [done..|].
        rewrite En. apply elem_of_app. right. left.
      * right. rewrite Ec, <- Hctx; done.
  - intros m nd' e. rewrite finish_lookup, finish_err. case_decide.
    + intros [= <- ->]. destruct (g_err g); eauto.
    + intros Hm. destruct (Herr m nd' e Hm) as [e0 ->]. eauto.
  - rewrite finish_err. destruct (g_err g) as [e0|] eqn:Ee.
    + intros _. destruct Hcul as (m & nd' & e & Hm); [by eauto|].
      exists m, nd', e. rewrite finish_lookup, decide_False; [done|].
      intros ->. rewrite Hm in Hn. by simplify_eq.
    + intros [e ->]. exists n, nd, e. by rewrite finish_lookup, decide_True.
  - rewrite finish_err, finish_ctx. destruct (g_err g) eqn:Ee; [done|].
    intros ->. rewrite Ec. by apply Hctx.
  - rewrite finish_err, finish_ctx. destruct (g_err g) eqn:Ee.
    + intros _. destruct r0, (g_ctx g); try done; by apply Hcancel.
    + intros [e ->]. destruct (g_ctx g); eauto.
Qed.

Lemma good_step t0 c x y :
  good query verdict t0 nodes x → gstep interval body c x y →
  good query verdict t0 nodes y.
Proof.
  intros Hg Hstep.
  destruct Hstep as [e g st|n nd g st Hn|n nd d g st s st' Hn Hb
                     |n nd d g st s st' Hn Hb|n nd d g st e st' Hn Hb
                     |n nd d e g st Hn Hc].
  - destruct Hg as [Hdom Ht Hev Hq Hv Hnil Hfirst Herr Hcul Hctx Hcancel].
    simpl in *. split; simpl; try done.
    + intros e' He'. destruct (Hfirst e' He') as [?|Hc]; [by left|].
      right. by rewrite Hc.
    + intros He. by rewrite (Hctx He).
    + intros He. destruct (Hcancel He) as [? ->]. eauto.
  - eapply (good_keep t0 g st _ n nd AtTop _ [_]); try done. apply added_timer.
  - destruct (Hbody n nd (g_shared g) st) as (r & w' & logs & sh' & Eb & Hl).
    rewrite Eb in Hb. destruct (verdict r) as [[]|] eqn:Ev; simpl in Hb; simplify_eq.
    apply good_set_shared.
    eapply (good_keep t0 g st _ n nd (Waiting d) AtTop (_ :: logs)); try done.
    rewrite <- Ev. by apply added_call.
  - destruct (Hbody n nd (g_shared g) st) as (r & w' & logs & sh' & Eb & Hl).
    rewrite Eb in Hb. destruct (verdict r) as [[]|] eqn:Ev; simpl in Hb; simplify_eq.
    apply good_set_shared.
    eapply (good_finish t0 g st _ n nd (Waiting d) (verdict r) None (_ :: logs));
      try done; [by apply added_call|by left].
  - destruct (Hbody n nd (g_shared g) st) as (r & w' & logs & sh' & Eb & Hl).
    rewrite Eb in Hb. destruct (verdict r) as [[]|] eqn:Ev; simpl in Hb; simplify_eq.
    eapply (good_finish t0 g st _ n nd (Waiting d) (verdict r) (Some _) (_ :: logs));
      try done; [by apply added_call|by left].
  - eapply (good_finish t0 g st st n nd (Waiting d) None (Some e) []); try done.
    + by rewrite app_nil_r.
    + apply added_none.
    + right. eauto.
Qed.

Lemma all_returned_spec g :
  all_returned g = true ↔
  ∀ n nd ws, g_workers g !! n = Some (nd, ws) → is_returned ws = true.
Proof.
  unfold all_returned. rewrite bool_decide_eq_true. unfold map_Forall.
  split.
  - intros H n nd ws Hn. by apply (H n (nd, ws)).
  - intros H n [nd ws] Hn. by eapply H.
Qed.

(** The state in which a fan-out ends, whatever the schedule. *)
Lemma fan_out_good sh st o st' :
  fan_out interval body sh nodes st = (o, st') →
  ∃ g', good query verdict (trace st) nodes (g', st') ∧
    (o = Ret tt ∧ all_returned g' = true ∧ g_err g' = None ∨
     (∃ e, o = Err e ∧ all_returned g' = true ∧ g_err g' = Some e) ∨
     o = Pending ∧ all_returned g' = false).
Proof using Hbody.
  unfold fan_out.
  destruct (run_group interval body (sched st) (spawn sh nodes st) st)
    as [[o1 g1] st1] eqn:Er.
  intros E. exists g1.
  destruct (run_group_inv interval body
              (good query verdict (trace st) nodes)
              (sched st) (spawn sh nodes st) st o1 g1 st1
              polls_with_total) as [Hg Ho].
  - intros c x y _. apply good_step.
  - intros g0 st0 s0. apply good_set_sched.
  - apply good_spawn.
  - done.
  - destruct Ho as [[-> Ha]|[-> Ha]].
    + destruct (g_err g1) eqn:Ee; simplify_eq; split; eauto 10.
    + simplify_eq. split; eauto 10.
Qed.

Lemma good_node t0 g st n nd ws :
  good query verdict t0 nodes (g, st) →
  g_workers g !! n = Some (nd, ws) → nodes !! n = Some nd.
Proof.
  intros Hg Hn. pose proof (good_dom _ _ _ _ _ Hg n) as Hd. simpl in Hd.
  by rewrite <- Hd, Hn.
Qed.

Lemma good_worker t0 g st n nd :
  good query verdict t0 nodes (g, st) →
  nodes !! n = Some nd → ∃ ws, g_workers g !! n = Some (nd, ws).
Proof.
  intros Hg Hn. pose proof (good_dom _ _ _ _ _ Hg n) as Hd. simpl in Hd.
  rewrite Hn in Hd.
  destruct (g_workers g !! n) as [[nd' ws]|]; simplify_eq/=. eauto.
Qed.

(** The wait returns nil exactly when every goroutine has read an answer
    that makes it return nil. *)
Lemma fan_out_nil_iff sh st o st' :
  fan_out interval body sh nodes st = (o, st') →
  o = Ret tt ↔
  ∀ n nd, nodes !! n = Some nd →
    ∃ r, verdict r = Some None ∧
         ECall (Worker n) (query n nd) r ∈ new_events st st'.
Proof using Hbody.
  intros E. destruct (fan_out_good _ _ _ _ E) as (g & Hg & Ho).
  change (new_events st st') with (news (trace st) st').
  split.
  - intros ->. destruct Ho as [(_ & Ha & He)|[(e & ? & _)|[? _]]]; [|done..].
    intros n nd Hn. destruct (good_worker _ _ _ _ _ Hg Hn) as [ws Hw].
    rewrite all_returned_spec in Ha. specialize (Ha _ _ _ Hw).
    destruct ws as [| |[e|]]; try done.
    + destruct (good_err _ _ _ _ _ Hg _ _ _ Hw) as [e' He']. simpl in He'.
      congruence.
    + by apply (good_nil _ _ _ _ _ Hg).
  - intros Hall.
    assert (Hret : ∀ n nd ws, g_workers g !! n = Some (nd, ws) → ws = Returned None).
    { intros n nd ws Hw.
      destruct (Hall n nd (good_node _ _ _ _ _ _ Hg Hw)) as (r & Hv & Hin).
      destruct (good_verdict _ _ _ _ _ Hg _ _ _ _ Hin Hv) as [nd' Hw'].
      simpl in Hw'. congruence. }
    destruct Ho as [(-> & _)|[(e & -> & _ & He)|[-> Ha]]]; [done|exfalso..].
    + destruct (good_culprit _ _ _ _ _ Hg) as (m & nd' & e' & Hm); [by eexists|].
      apply Hret in Hm. done.
    + apply not_true_iff_false in Ha. apply Ha, all_returned_spec.
      intros n nd ws Hw. by rewrite (Hret _ _ _ Hw).
Qed.

(** The error the wait returns is one a goroutine got from its query, or
    the error of the caller's context. *)
Lemma fan_out_err sh st e st' :
  fan_out interval body sh nodes st = (Err e, st') →
  (∃ n nd r, nodes !! n = Some nd ∧ verdict r = Some (Some e) ∧
             ECall (Worker n) (query n nd) r ∈ new_events st st') ∨
  ctx st' = Some e.
Proof using Hbody.
  intros E. destruct (fan_out_good _ _ _ _ E) as (g & Hg & Ho).
  destruct Ho as [(? & _)|[(e' & ? & _ & He)|[? _]]]; simplify_eq.
  by apply (good_first _ _ _ _ _ Hg).
Qed.

(** An answer that makes a goroutine fail makes the wait fail. *)
Lemma fan_out_hard sh st o st' n q r e :
  fan_out interval body sh nodes st = (o, st') →
  ECall (Worker n) q r ∈ new_events st st' → verdict r = Some (Some e) →
  o ≠ Ret tt.
Proof using Hbody.
  intros E Hin Hv ->. destruct (fan_out_good _ _ _ _ E) as (g & Hg & Ho).
  destruct Ho as [(_ & _ & He)|[(e' & ? & _)|[? _]]]; [|done..].
  destruct (good_verdict _ _ _ _ _ Hg _ _ _ _ Hin Hv) as [nd Hw].
  destruct (good_err _ _ _ _ _ Hg _ _ _ Hw) as [e' He']. simpl in *.
  congruence.
Qed.

(** What a fan-out adds to the trace. *)
Lemma fan_out_events sh st o st' :
  fan_out interval body sh nodes st = (o, st') →
  trace st' = trace st ++ new_events st st' ∧
  Forall (fan_out_event nodes query) (new_events st st') ∧
  quiet_after_verdict verdict (new_events st st').
Proof using Hbody.
  intros E. destruct (fan_out_good _ _ _ _ E) as (g & Hg & _).
  split_and!.
  - apply (good_trace _ _ _ _ _ Hg).
  - apply (good_events _ _ _ _ _ Hg).
  - apply (good_quiet _ _ _ _ _ Hg).
Qed.

(** A fan-out neither panics nor, over an empty map, waits. *)
Lemma fan_out_outcome sh st o st' :
  fan_out interval body sh nodes st = (o, st') →
  o = Ret tt ∨ (∃ e, o = Err e) ∨ o = Pending.
Proof using Hbody.
  intros E. destruct (fan_out_good _ _ _ _ E) as (g & _ & Ho).
  destruct Ho as [(? & _)|[(e' & ? & _)|[? _]]]; eauto.
Qed.
End good_facts.

(** ** Schedules that end a wait *)

Section live.
Context {W S : Type}.
Variable interval : S → Duration.
Variable body : string → Node → S → M (W := W) (iter * S).
Implicit Types (g : group S) (st : state W) (sh : S).

Lemma all_returned_active g : all_returned g = true ↔ ∀ n, ¬ active g n.
Proof.
  rewrite all_returned_spec. split.
  - intros H n (nd & ws & Hn & Hw). rewrite (H _ _ _ Hn) in Hw. done.
  - intros H n nd ws Hn. destruct (is_returned ws) eqn:E; [done|].
    destruct (H n). by exists nd, ws.
Qed.

Lemma run_group_returned s g st :
  all_returned g = true →
  run_group interval body s g st = (Ret tt, g, set_sched s st).
Proof. intros H. destruct s; simpl; by rewrite H. Qed.

Lemma run_group_skip c s g st :
  group_step interval body c g st = (Ret g, st) →
  (run_group interval body (c :: s) g st).1 = (run_group interval body s g st).1.
Proof.
  intros H. simpl. rewrite H. destruct (all_returned g) eqn:Ea; [|done].
  by rewrite run_group_returned.
Qed.

Lemma run_group_move c s g st g' st' :
  all_returned g = false →
  group_step interval body c g st = (Ret g', st') →
  run_group interval body (c :: s) g st = run_group interval body s g' st'.
Proof. intros Ha H. simpl. by rewrite Ha, H. Qed.

Lemma group_step_arm n nd g st :
  g_workers g !! n = Some (nd, AtTop) →
  group_step interval body (SStep (Worker n)) g st =
    (Ret (set_worker n nd (Waiting (interval (g_shared g))) g),
     emit (ETimer (Worker n) (interval (g_shared g))) st).
Proof. intros H. unfold group_step. by rewrite H. Qed.

Lemma group_step_done n nd d e g st :
  g_workers g !! n = Some (nd, Waiting d) → g_ctx g = Some e →
  group_step interval body (SDone (Worker n)) g st =
    (Ret (finish n nd (Some e) g), st).
Proof. intros H Hc. unfold group_step. by rewrite H, Hc. Qed.

Lemma group_step_idle c n g st :
  c = SStep (Worker n) ∨ c = SDone (Worker n) →
  (∀ nd ws, g_workers g !! n = Some (nd, ws) → is_returned ws = true) →
  group_step interval body c g st = (Ret g, st).
Proof.
  intros [-> | ->] H; unfold group_step;
    destruct (g_workers g !! n) as [[nd [|d|r]]|] eqn:En; try done;
    by specialize (H _ _ eq_refl).
Qed.

Lemma group_step_done_top n nd g st :
  g_workers g !! n = Some (nd, AtTop) →
  group_step interval body (SDone (Worker n)) g st = (Ret g, st).
Proof. intros H. unfold group_step. by rewrite H. Qed.

Lemma first_err_finish g n nd d e e' :
  g_workers g !! n = Some (nd, Waiting d) →
  g_ctx g = Some e' → first_err g e →
  first_err (finish n nd (Some e') g) e ∧ is_Some (g_ctx (finish n nd (Some e') g)).
Proof.
  intros Hn Hc [He|(He & Hc' & _)]; unfold first_err;
    rewrite finish_err, finish_ctx, He, Hc; split; eauto.
  left. congruence.
Qed.

(** Once the derived context is done, a schedule that lets every goroutine
    see it ends the wait with the first error. *)
Lemma run_drain ks rest g st e :
  is_Some (g_ctx g) → first_err g e →
  (∀ n, active g n → n ∈ ks) →
  ∃ g', (run_group interval body (drain ks ++ rest) g st).1 = (Ret tt, g') ∧
        g_err g' = Some e.
Proof.
  revert g st. induction ks as [|n ks IH]; intros g st Hc Hf Hact.
  - assert (Ha : all_returned g = true).
    { apply all_returned_active. intros n Hn. apply Hact in Hn.
      by apply elem_of_nil in Hn. }
    rewrite run_group_returned by done. exists g. split; [done|].
    destruct Hf as [?|(_ & _ & ?)]; congruence.
  - destruct (all_returned g) eqn:Ea.
    { rewrite run_group_returned by done. exists g. split; [done|].
      destruct Hf as [?|(_ & _ & ?)]; congruence. }
    change (drain (n :: ks) ++ rest) with
      (SDone (Worker n) :: SStep (Worker n) :: SDone (Worker n) :: (drain ks ++ rest)).
    destruct Hc as [e' Hc].
    destruct (g_workers g !! n) as [[nd [|d|r]]|] eqn:En.
    + (* at the top of its loop: it arms its timer and sees the context *)
      rewrite run_group_skip by by eapply group_step_done_top.
      erewrite run_group_move; [|done|by apply group_step_arm].
      set (g1 := set_worker n nd (Waiting (interval (g_shared g))) g).
      set (st1 := emit _ st).
      assert (En1 : g_workers g1 !! n = Some (nd, Waiting (interval (g_shared g)))).
      { apply lookup_insert_eq. }
      assert (Ha1 : all_returned g1 = false).
      { apply not_true_iff_false. rewrite all_returned_active. intros H.
        apply (H n). eexists _, _. split; [exact En1|done]. }
      erewrite run_group_move; [|done|by eapply group_step_done].
      destruct (first_err_finish g1 n nd _ e e' En1 Hc) as [Hf1 Hc1].
      { destruct Hf as [?|(? & ? & _)]; [by left|right; done]. }
      apply IH; [done..|].
      intros m (nd' & ws & Hm & Hw). rewrite finish_lookup in Hm.
      case_decide; [by simplify_eq|].
      unfold g1 in Hm. simpl in Hm. rewrite lookup_insert_ne in Hm by done.
      assert (m ∈ n :: ks) as Hin by (apply Hact; by exists nd', ws).
      apply elem_of_cons in Hin as [->|]; done.
    + (* waiting: it sees the context at once *)
      erewrite run_group_move; [|done|by eapply group_step_done].
      destruct (first_err_finish g n nd _ e e' En Hc Hf) as [Hf1 Hc1].
      set (g1 := finish n nd (Some e') g) in *.
      assert (En1 : ∀ nd' ws, g_workers g1 !! n = Some (nd', ws) → is_returned ws = true).
      { intros nd' ws. unfold g1. rewrite finish_lookup, decide_True by done.
        by intros [= <- <-]. }
      rewrite run_group_skip by (eapply group_step_idle; eauto).
      rewrite run_group_skip by (eapply group_step_idle; eauto).
      apply IH; [done..|].
      intros m (nd' & ws & Hm & Hw). unfold g1 in Hm.
      rewrite finish_lookup in Hm. case_decide; [by simplify_eq|].
      assert (m ∈ n :: ks) as Hin by (apply Hact; by exists nd', ws).
      apply elem_of_cons in Hin as [->|]; done.
    + (* returned *)
      assert (En1 : ∀ nd' ws, g_workers g !! n = Some (nd', ws) → is_returned ws = true).
      { intros nd' ws. rewrite En. by intros [= <- <-]. }
      rewrite !run_group_skip by (eapply group_step_idle; eauto).
      apply IH; [by eexists|done|].
      intros m Hm. pose proof Hm as (nd' & ws & Hm' & Hw).
      assert (m ∈ n :: ks) as Hin by by apply Hact.
      apply elem_of_cons in Hin as [->|]; [|done].
      rewrite En in Hm'. by simplify_eq.
    + assert (En1 : ∀ nd' ws, g_workers g !! n = Some (nd', ws) → is_returned ws = true).
      { intros nd' ws. by rewrite En. }
      rewrite !run_group_skip by (eapply group_step_idle; eauto).
      apply IH; [by eexists|done|].
      intros m Hm. pose proof Hm as (nd' & ws & Hm' & Hw).
      assert (m ∈ n :: ks) as Hin by by apply Hact.
      apply elem_of_cons in Hin as [->|]; [|done].
      rewrite En in Hm'. by simplify_eq.
Qed.

Lemma group_step_fail n nd d e g st st' :
  g_workers g !! n = Some (nd, Waiting d) →
  body n nd (g_shared g) st = (Err e, st') →
  group_step interval body (SStep (Worker n)) g st =
    (Ret (finish n nd (Some e) g), st').
Proof. intros H Hb. unfold group_step. by rewrite H, Hb. Qed.

Lemma fan_out_of_run sh nodes st g e :
  (run_group interval body (sched st) (spawn sh nodes st) st).1 = (Ret tt, g) →
  g_err g = Some e →
  (fan_out interval body sh nodes st).1 = Err e.
Proof.
  unfold fan_out.
  destruct (run_group interval body (sched st) (spawn sh nodes st) st)
    as [[o g'] st'].
  simpl. intros [= -> ->] ->. done.
Qed.

Lemma spawn_active sh nodes st n :
  active (spawn sh nodes st) n ↔ is_Some (nodes !! n).
Proof.
  unfold active, spawn. simpl. rewrite lookup_fmap. split.
  - intros (nd & ws & Hn & _). by destruct (nodes !! n).
  - intros [nd ->]. by exists nd, AtTop.
Qed.

(** A goroutine whose first query fails makes the wait return that error,
    once the others have seen the context done. *)
Lemma fan_out_fail_fast sh nodes st n0 nd0 e st1 ks rest :
  nodes !! n0 = Some nd0 →
  body n0 nd0 sh (emit (ETimer (Worker n0) (interval sh)) st) = (Err e, st1) →
  sched st = SStep (Worker n0) :: SStep (Worker n0) :: drain ks ++ rest →
  (∀ n, is_Some (nodes !! n) → n ∈ ks) →
  (fan_out interval body sh nodes st).1 = Err e.
Proof.
  intros Hn Hb Hs Hks.
  set (g0 := spawn sh nodes st).
  assert (E0 : g_workers g0 !! n0 = Some (nd0, AtTop)).
  { unfold g0, spawn. simpl. by rewrite lookup_fmap, Hn. }
  assert (Ha0 : all_returned g0 = false).
  { apply not_true_iff_false. rewrite all_returned_active. intros H.
    apply (H n0). by exists nd0, AtTop. }
  set (g1 := set_worker n0 nd0 (Waiting (interval sh)) g0).
  assert (E1 : g_workers g1 !! n0 = Some (nd0, Waiting (interval sh))).
  { apply lookup_insert_eq. }
  assert (Ha1 : all_returned g1 = false).
  { apply not_true_iff_false. rewrite all_returned_active. intros H.
    apply (H n0). by eexists nd0, _. }
  set (g2 := finish n0 nd0 (Some e) g1).
  destruct (run_drain ks rest g2 st1 e) as (g' & Hr & He).
  - unfold g2. rewrite finish_ctx. simpl. by destruct (ctx st).
  - left. unfold g2. by rewrite finish_err.
  - intros m (nd & ws & Hm & Hw). apply Hks. unfold g2 in Hm.
    rewrite finish_lookup in Hm. case_decide; [by simplify_eq|].
    unfold g1 in Hm. simpl in Hm. rewrite lookup_insert_ne in Hm by done.
    rewrite lookup_fmap in Hm. by destruct (nodes !! m).
  - apply (fan_out_of_run _ _ _ g'); [|done].
    rewrite Hs, <- Hr.
    erewrite run_group_move; [|done|by apply group_step_arm].
    erewrite run_group_move; [|done|by eapply group_step_fail].
    done.
Qed.

(** When the caller's context is cancelled, the wait over a map that is
    not empty returns the context's error once every goroutine has seen
    it. *)
Lemma fan_out_cancelled sh nodes st e ks rest :
  nodes ≠ ∅ → ctx st = None →
  sched st = SCancel e :: drain ks ++ rest →
  (∀ n, is_Some (nodes !! n) → n ∈ ks) →
  (fan_out interval body sh nodes st).1 = Err e.
Proof.
  intros Hne Hc Hs Hks.
  set (g0 := spawn sh nodes st).
  assert (Ha0 : all_returned g0 = false).
  { apply not_true_iff_false. rewrite all_returned_active. intros H.
    apply Hne, map_empty. intros n.
    destruct (nodes !! n) as [nd|] eqn:En; [|done].
    destruct (H n). apply spawn_active. by rewrite En. }
  destruct (run_drain ks rest (cancel_group e g0) (cancel_ctx e st) e)
    as (g' & Hr & He).
  - simpl. rewrite Hc. by eexists.
  - right. simpl. by rewrite Hc.
  - intros m Hm. apply Hks, (spawn_active sh nodes st). done.
  - apply (fan_out_of_run _ _ _ g'); [|done].
    rewrite Hs, <- Hr. by erewrite run_group_move.
Qed.
End live.

(** ** The four loop bodies *)

Section bodies.
Context {W : Type} (api : API W) (lib : Lib).

Ltac run_body :=
  unfold bind, perform, try, try_wrap, log, ret, fail, emit, set_world; simpl.

Lemma createSubnet_poll_polls tx :
  polls_with (createSubnet_poll api tx) (tx_query tx) tx_verdict.
Proof.
  intros n nd [] st. unfold createSubnet_poll, tx_query. run_body.
  destruct (GetTxStatus api (GetAPIClient nd) tx true (world st))
    as [[status|e] w'].
  - exists (RTxStatus (Val status)), w'.
    destruct status; simpl; eexists [_], tt; rewrite <- app_assoc;
      (split; [reflexivity|by repeat constructor]).
  - exists (RTxStatus (Fail e)), w', [], tt. split; [done|constructor].
Qed.

Lemma addValidator_poll_polls tx :
  polls_with (addValidator_poll api tx) (tx_query tx) tx_verdict.
Proof.
  intros n nd [] st. unfold addValidator_poll, tx_query. run_body.
  destruct (GetTxStatus api (GetAPIClient nd) tx true (world st))
    as [[status|e] w'].
  - exists (RTxStatus (Val status)), w'.
    destruct status; simpl; eexists [_], tt; rewrite <- app_assoc;
      (split; [reflexivity|by repeat constructor]).
  - exists (RTxStatus (Fail e)), w', [], tt. split; [done|constructor].
Qed.

Lemma ensureValidating_poll_polls b :
  polls_with (ensureValidating_poll api lib b) (chain_query lib b) chain_verdict.
Proof.
  intros n nd sh st. unfold ensureValidating_poll, chain_query. run_body.
  destruct (GetBlockchainStatus api (GetAPIClient nd) (ID_String lib b) (world st))
    as [[status|e] w'].
  - exists (RChainStatus (Val status)), w'.
    destruct status; simpl; eexists [_], _; rewrite <- app_assoc;
      (split; [reflexivity|by repeat constructor]).
  - exists (RChainStatus (Fail e)), w', [], sh. split; [done|constructor].
Qed.

Lemma ensureBootstrapped_poll_polls b :
  polls_with (ensureBootstrapped_poll api lib b) (boot_query lib b) boot_verdict.
Proof.
  intros n nd [] st. unfold ensureBootstrapped_poll, boot_query. run_body.
  destruct (IsBootstrapped api (GetAPIClient nd) (ID_String lib b) (world st))
    as [[bootstrapped err] w'].
  exists (RBoot bootstrapped err), w'.
  destruct bootstrapped; simpl; eexists [_], tt; rewrite <- app_assoc;
    (split; [reflexivity|by repeat constructor]).
Qed.
End bodies.

(** ** Building the shared arguments *)

Section newArgs_facts.
Context {W : Type} (api : API W) (lib : Lib).

Ltac run_main :=
  unfold bind, perform, try, try_wrap, log, ret, fail, panic, emit, set_world;
  simpl.

Lemma newArgs_runs vm key st :
  trace (newArgs api lib vm key st).2 =
    trace st ++ new_events st (newArgs api lib vm key st).2 ∧
  newArgs_run lib vm key (newArgs api lib vm key st).1
    (new_events st (newArgs api lib vm key st).2).
Proof.
  unfold newArgs, new_events. run_main.
  destruct (GetAllNodes api (world st)) as [[m|e] w1]; simpl.
  2: { rewrite drop_app_length. split; [done|constructor]. }
  destruct (GetNodeNames api w1) as [[[|n ns]|e] w2]; simpl;
    rewrite <- ?app_assoc; simpl.
  1, 3: rewrite drop_app_length; split; [done|constructor].
  destruct (m !! n) as [nd|] eqn:En; simpl.
  2: { rewrite drop_app_length. split; [done|by constructor]. }
  destruct (CreateUser api (GetAPIClient nd) (defaultUserPass lib) w2)
    as [[ok err] w3]; simpl.
  destruct ok, err as [err|]; simpl; rewrite <- ?app_assoc; simpl.
  1: { rewrite drop_app_length. split; [done|].
       by apply (na_user_fail lib vm key m n ns nd true (Some err) En). }
  2: { rewrite drop_app_length. split; [done|].
       by apply (na_user_fail lib vm key m n ns nd false (Some err) En). }
  2: { rewrite drop_app_length. split; [done|].
       by apply (na_user_fail lib vm key m n ns nd false None En). }
  destruct (ImportKey api (GetAPIClient nd) (defaultUserPass lib) key w3)
    as [[addr|e] w4]; simpl.
  2: { rewrite <- ?app_assoc. simpl. rewrite drop_app_length.
       split; [done|by constructor]. }
  destruct (ids_FromString lib (SubnetID vm)) as [id|e] eqn:Ei; simpl;
    rewrite <- ?app_assoc; simpl; rewrite drop_app_length;
    (split; [done|by constructor]).
Qed.

(** C2 (amended).  When the subnet identifier of the VM does not parse,
    [newArgs] never returns arguments.  The identifier is parsed last:
    when the two reads of the fleet, the creation of the keystore user
    and the import of the key succeed, [newArgs] fails with the parse
    error after these four calls, the user created and the key imported
    on the issuing node. *)
Theorem newArgs_malformed_subnetID vm key st e :
  ids_FromString lib (SubnetID vm) = Fail e →
  (∀ a, (newArgs api lib vm key st).1 ≠ Ret a) ∧
  (∀ m w1 n ns w2 nd w3 addr w4,
     GetAllNodes api (world st) = (Val m, w1) →
     GetNodeNames api w1 = (Val (n :: ns), w2) →
     m !! n = Some nd →
     CreateUser api (GetAPIClient nd) (defaultUserPass lib) w2 = ((true, None), w3) →
     ImportKey api (GetAPIClient nd) (defaultUserPass lib) key w3 = (Val addr, w4) →
     newArgs api lib vm key st =
       (Err (ErrWrap "invalid subnetID string" e),
        {| world := w4;
           trace := trace st ++
             [ECall Main CGetAllNodes (RNodes (Val m));
              ECall Main CGetNodeNames (RNames (Val (n :: ns)));
              ECall Main (CCreateUser (GetAPIClient nd) (defaultUserPass lib))
                (RUser true None);
              ECall Main (CImportKey (GetAPIClient nd) (defaultUserPass lib) key)
                (RAddr (Val addr))];
           ctx := ctx st; sched := sched st |})).
Proof.
  intros He. split.
  - intros a Ha. destruct (newArgs_runs vm key st) as [_ Hrun].
    rewrite Ha in Hrun. inversion Hrun. congruence.
  - intros m w1 n ns w2 nd w3 addr w4 H1 H2 H3 H4 H5.
    unfold newArgs. run_main. rewrite H1. simpl. rewrite H2. simpl.
    rewrite H3. simpl. rewrite H4. simpl. rewrite H5. simpl. rewrite He.
    simpl. by rewrite <- !app_assoc.
Qed.

(** C3 (amended).  [newArgs] checks that the list of node names is not
    empty and fails with that error before any call to a node, whatever
    the node map.  It has no check of its own on the node map: with an
    empty map, an error comes from the names only, because reading them
    failed or because there is none. *)
Theorem newArgs_checks_names_only vm key st m w1 :
  GetAllNodes api (world st) = (Val m, w1) →
  (∀ w2, GetNodeNames api w1 = (Val [], w2) →
     newArgs api lib vm key st =
       (Err (ErrNew "the array of node names is empty! Can't get any nodes"),
        {| world := w2;
           trace := trace st ++
             [ECall Main CGetAllNodes (RNodes (Val m));
              ECall Main CGetNodeNames (RNames (Val []))];
           ctx := ctx st; sched := sched st |})) ∧
  (m = ∅ → ∀ e, (newArgs api lib vm key st).1 = Err e →
     (GetNodeNames api w1).1 = Fail e ∨
     (GetNodeNames api w1).1 = Val [] ∧
     e = ErrNew "the array of node names is empty! Can't get any nodes").
Proof.
  intros H1. split.
  - intros w2 H2. unfold newArgs. run_main. rewrite H1. simpl. rewrite H2.
    simpl. by rewrite <- !app_assoc.
  - intros -> e. unfold newArgs. run_main. rewrite H1. simpl.
    destruct (GetNodeNames api w1) as [[[|n ns]|e'] w2]; simpl.
    + intros [= <-]. by right.
    + by rewrite lookup_empty.
    + intros [= <-]. by left.
Qed.

(** C9.  [newArgs] looks the first node name up in the node map without
    checking that it is there.  When it is not, no node comes back and the
    call of its method panics, before any call to a node; [newArgs]
    panics in no other case, so never when the first name is a key of the
    map. *)
Theorem newArgs_unchecked_lookup vm key st m w1 n ns w2 :
  GetAllNodes api (world st) = (Val m, w1) →
  GetNodeNames api w1 = (Val (n :: ns), w2) →
  (m !! n = None →
     newArgs api lib vm key st =
       (Panic,
        {| world := w2;
           trace := trace st ++
             [ECall Main CGetAllNodes (RNodes (Val m));
              ECall Main CGetNodeNames (RNames (Val (n :: ns)))];
           ctx := ctx st; sched := sched st |})) ∧
  (is_Some (m !! n) → (newArgs api lib vm key st).1 ≠ Panic).
Proof.
  intros H1 H2. split.
  - intros H3. unfold newArgs. run_main. rewrite H1. simpl. rewrite H2.
    simpl. rewrite H3. simpl. by rewrite <- !app_assoc.
  - intros [nd H3]. unfold newArgs. run_main. rewrite H1. simpl. rewrite H2.
    simpl. rewrite H3. simpl.
    destruct (CreateUser api (GetAPIClient nd) (defaultUserPass lib) w2)
      as [[[] [err|]] w3]; simpl; try done.
    destruct (ImportKey api (GetAPIClient nd) (defaultUserPass lib) key w3)
      as [[addr|e] w4]; simpl; try done.
    destruct (ids_FromString lib (SubnetID vm)); simpl; done.
Qed.

(** What [isSubnetInList] returns depends on the error of the query
    alone. *)
Lemma isSubnetInList_result c id st :
  (isSubnetInList api c id st).1 =
    match (GetSubnets api c [id] (world st)).1 with
    | Val _ => Ret tt
    | Fail e => Err (ErrWrap "subnet not found" e)
    end.
Proof.
  unfold isSubnetInList. run_main.
  by destruct (GetSubnets api c [id] (world st)) as [[l|e] w1].
Qed.
End newArgs_facts.

(** C2, a run against the claim as it was stated: the identifier does not
    parse and is rejected after the user was created and the key
    imported. *)
Lemma newArgs_parses_subnetID_last :
  ids_FromString Demo.lib (SubnetID Demo.vm_no_subnet) =
    Fail (ExtErr "invalid hash length") ∧
  newArgs (scripted Demo.good) Demo.lib Demo.vm_no_subnet "key" (start ∅ []) =
    (Err (ErrWrap "invalid subnetID string" (ExtErr "invalid hash length")),
     {| world := ∅;
        trace :=
          [ECall Main CGetAllNodes (RNodes (Val Demo.fleet));
           ECall Main CGetNodeNames (RNames (Val ["node1"; "node2"]));
           ECall Main (CCreateUser "c1" (defaultUserPass Demo.lib)) (RUser true None);
           ECall Main (CImportKey "c1" (defaultUserPass Demo.lib) "key")
             (RAddr (Val "P-addr"))];
        ctx := None; sched := [] |}).
Proof. split; reflexivity. Qed.

Lemma newArgs_malformed_subnetID_witness :
  ids_FromString Demo.lib (SubnetID Demo.vm_no_subnet) =
    Fail (ExtErr "invalid hash length") ∧
  ∀ a, (newArgs (scripted Demo.good) Demo.lib Demo.vm_no_subnet "key"
          (start ∅ [])).1 ≠ Ret a.
Proof.
  split; [reflexivity|].
  apply (newArgs_malformed_subnetID (scripted Demo.good) Demo.lib
           Demo.vm_no_subnet "key" (start ∅ []) (ExtErr "invalid hash length")).
  reflexivity.
Defined.

(** C3, a run against the claim as it was stated: the node map is empty and
    [newArgs] returns no error. *)
Lemma newArgs_empty_node_map_no_error :
  GetAllNodes (scripted Demo.no_nodes) ∅ = (Val ∅, ∅) ∧
  (newArgs (scripted Demo.no_nodes) Demo.lib Demo.vm "key" (start ∅ [])).1 = Panic.
Proof. split; reflexivity. Qed.

Lemma newArgs_checks_names_only_witness :
  GetAllNodes (scripted Demo.no_nodes) ∅ = (Val ∅, ∅) ∧
  ∀ e, (newArgs (scripted Demo.no_nodes) Demo.lib Demo.vm "key" (start ∅ [])).1 = Err e →
    (GetNodeNames (scripted Demo.no_nodes) ∅).1 = Fail e ∨
    (GetNodeNames (scripted Demo.no_nodes) ∅).1 = Val [] ∧
    e = ErrNew "the array of node names is empty! Can't get any nodes".
Proof.
  split; [reflexivity|].
  apply (newArgs_checks_names_only (scripted Demo.no_nodes) Demo.lib Demo.vm
           "key" (start ∅ []) ∅ ∅); reflexivity.
Defined.

Lemma newArgs_unchecked_lookup_witness :
  GetAllNodes (scripted Demo.no_nodes) ∅ = (Val ∅, ∅) ∧
  GetNodeNames (scripted Demo.no_nodes) ∅ = (Val ["node1"], ∅) ∧
  ((∅ : gmap string Node) !! "node1" = None →
   newArgs (scripted Demo.no_nodes) Demo.lib Demo.vm "key" (start ∅ []) =
     (Panic,
      {| world := ∅;
         trace := [] ++
           [ECall Main CGetAllNodes (RNodes (Val ∅));
            ECall Main CGetNodeNames (RNames (Val ["node1"]))];
         ctx := None; sched := [] |})).
Proof.
  split; [reflexivity|]. split; [reflexivity|].
  apply (newArgs_unchecked_lookup (scripted Demo.no_nodes) Demo.lib Demo.vm
           "key" (start ∅ []) ∅ ∅ "node1" [] ∅); reflexivity.
Defined.

(** C1, at a subnet list that lacks the subnet: the issuing node answers
    the query with an empty list and no error, and [isSubnetInList] returns
    nil; [SetupSubnet] on that fleet goes on to the end and returns nil. *)
Theorem isSubnetInList_accepts_absent_subnet :
  GetSubnets (scripted Demo.good) "c1" [7%N] ∅ = (Val [], ∅) ∧
  isSubnetInList (scripted Demo.good) "c1" 7%N (start ∅ []) =
    (Ret tt,
     {| world := ∅;
        trace := [ECall Main (CGetSubnets "c1" [7%N]) (RSubnets (Val []))];
        ctx := None; sched := [] |}) ∧
  ECall Main (CGetSubnets "c1" [7%N]) (RSubnets (Val [])) ∈
    trace (SetupSubnet (scripted Demo.good) Demo.lib Demo.vm "key"
             (start ∅ Demo.schedule)).2 ∧
  (SetupSubnet (scripted Demo.good) Demo.lib Demo.vm "key"
     (start ∅ Demo.schedule)).1 = Ret tt.
Proof.
  split; [reflexivity|]. split; [reflexivity|]. split; [|by vm_compute].
  vm_compute. do 19 right. left.
Qed.

(** ** Creating the subnet *)

Lemma tx_verdict_nil r : tx_verdict r = Some None ↔ r = RTxStatus (Val Committed).
Proof.
  split; [|by intros ->].
  destruct r as [| | | | |[[]|]| | | | |]; simpl; congruence.
Qed.

Lemma tx_verdict_err r e : tx_verdict r = Some (Some e) ↔ r = RTxStatus (Fail e).
Proof.
  split; [|by intros ->].
  destruct r as [| | | | |[[]|]| | | | |]; simpl; congruence.
Qed.

Lemma new_events_cons {W} (st st1 st' : state W) ev :
  trace st1 = trace st ++ [ev] →
  trace st' = trace st1 ++ new_events st1 st' →
  new_events st st' = ev :: new_events st1 st'.
Proof.
  intros E1 E'. apply new_events_app. rewrite E', E1, <- app_assoc. done.
Qed.

Section createSubnet_facts.
Context {W : Type} (api : API W) (lib : Lib).

(** C6.  After [createSubnet] has submitted the transaction [tx], its
    wait over the fleet returns nil exactly when the goroutine of every
    node has read the status Committed.  An error it returns is the error
    a goroutine got from its status query or the error of the caller's
    context; a status query that fails keeps the wait from returning nil;
    a goroutine that has read Committed adds no timer and no query.  The
    wait does return: when the first status query of a node fails, with
    that error, and when the caller's context is cancelled, with the
    context's error, once the other goroutines have seen their context
    done. *)
Theorem createSubnet_wait a st tx w1 :
  CreateSubnet api (txPChainClient a) (userPass a) [fundedAddress a]
    (fundedAddress a) [fundedAddress a] (defaultKeyThreshold lib) (world st)
    = (Val tx, w1) →
  let r := createSubnet api lib a st in
  let new := new_events st r.2 in
  (r.1 = Ret tt ↔
   ∀ n nd, allNodes a !! n = Some nd →
     ECall (Worker n) (tx_query tx n nd) (RTxStatus (Val Committed)) ∈ new) ∧
  (∀ e, r.1 = Err e →
     (∃ n nd, allNodes a !! n = Some nd ∧
              ECall (Worker n) (tx_query tx n nd) (RTxStatus (Fail e)) ∈ new) ∨
     ctx r.2 = Some e) ∧
  (∀ n q e, ECall (Worker n) q (RTxStatus (Fail e)) ∈ new → r.1 ≠ Ret tt) ∧
  (∀ t1 n q t2,
     new = t1 ++ ECall (Worker n) q (RTxStatus (Val Committed)) :: t2 →
     Forall (λ ev, ¬ by_worker n ev) t2) ∧
  (∀ n0 nd0 e ks rest,
     allNodes a !! n0 = Some nd0 →
     (GetTxStatus api (GetAPIClient nd0) tx true w1).1 = Fail e →
     sched st = SStep (Worker n0) :: SStep (Worker n0) :: drain ks ++ rest →
     (∀ n, is_Some (allNodes a !! n) → n ∈ ks) →
     r.1 = Err e) ∧
  (∀ e ks rest,
     allNodes a ≠ ∅ → ctx st = None →
     sched st = SCancel e :: drain ks ++ rest →
     (∀ n, is_Some (allNodes a !! n) → n ∈ ks) →
     r.1 = Err e).
Proof.
  intros Hsub r new.
  set (ev := ECall Main
               (CCreateSubnet (txPChainClient a) (userPass a) [fundedAddress a]
                  (fundedAddress a) [fundedAddress a] (defaultKeyThreshold lib))
               (RTx (Val tx))).
  set (st1 := emit ev (set_world w1 st)).
  assert (Er : r = fan_out (λ _, apiRetryFreq lib) (createSubnet_poll api tx) tt
                 (allNodes a) st1).
  { unfold r, createSubnet, bind, perform, try_wrap. rewrite Hsub. done. }
  pose proof (createSubnet_poll_polls api tx) as Hp.
  destruct r as [o st'] eqn:Eo. symmetry in Er.
  destruct (fan_out_events _ _ _ _ Hp _ _ _ _ _ Er) as (Ht & Hev & Hq).
  assert (En : new = ev :: new_events st1 st').
  { apply new_events_cons; [done|]. exact Ht. }
  assert (Hin : ∀ n q x, ECall (Worker n) q x ∈ new ↔
                         ECall (Worker n) q x ∈ new_events st1 st').
  { intros n q x. rewrite En, elem_of_cons. split; [|by right].
    by intros [|]. }
  simpl. split_and!.
  - rewrite (fan_out_nil_iff _ _ _ _ Hp _ _ _ _ _ Er). split.
    + intros H n nd Hn. destruct (H n nd Hn) as (x & Hx & Hi).
      apply tx_verdict_nil in Hx as ->. by apply Hin.
    + intros H n nd Hn. exists (RTxStatus (Val Committed)).
      split; [done|]. by apply Hin, H.
  - intros e ->.
    destruct (fan_out_err _ _ _ _ Hp _ _ _ _ _ Er) as [(n & nd & x & Hn & Hx & Hi)|?];
      [left|by right].
    apply tx_verdict_err in Hx as ->. exists n, nd. split; [done|]. by apply Hin.
  - intros n q e Hi. apply Hin in Hi.
    by eapply (fan_out_hard _ _ _ _ Hp _ _ _ _ _ _ _ _ _ Er Hi).
  - intros t1 n q t2 E. rewrite En in E. destruct t1 as [|ev' t1]; [discriminate E|].
    injection E as _ E. eapply Hq; [exact E|by eexists].
  - intros n0 nd0 e ks rest Hn HG Hs Hks.
    destruct (GetTxStatus api (GetAPIClient nd0) tx true w1) as [x w2] eqn:EG.
    simpl in HG. subst x.
    change o with (o, st').1. rewrite <- Er.
    eapply fan_out_fail_fast; [done| |done..].
    unfold createSubnet_poll, bind, perform, try, fail. simpl. rewrite EG.
    reflexivity.
  - intros e ks rest Hne Hc Hs Hks.
    change o with (o, st').1. rewrite <- Er.
    by eapply fan_out_cancelled.
Qed.
End createSubnet_facts.

Lemma createSubnet_wait_witness :
  CreateSubnet (scripted Demo.good) "c1" (defaultUserPass Demo.lib) ["P-addr"]
    "P-addr" ["P-addr"] 1 ∅ = (Val 7%N, ∅) ∧
  ((createSubnet (scripted Demo.good) Demo.lib Demo.a
      (start ∅ (round ["node1"; "node2"] ++ round ["node1"; "node2"]))).1 = Ret tt ↔
   ∀ n nd, Demo.fleet !! n = Some nd →
     ECall (Worker n) (tx_query 7%N n nd) (RTxStatus (Val Committed)) ∈
       new_events (start ∅ (round ["node1"; "node2"] ++ round ["node1"; "node2"]))
         (createSubnet (scripted Demo.good) Demo.lib Demo.a
            (start ∅ (round ["node1"; "node2"] ++ round ["node1"; "node2"]))).2).
Proof.
  split; [reflexivity|].
  apply (createSubnet_wait (scripted Demo.good) Demo.lib Demo.a
           (start ∅ (round ["node1"; "node2"] ++ round ["node1"; "node2"]))
           7%N ∅).
  reflexivity.
Defined.

(** ** The waits of the finalization *)

Lemma polls_polled c w c' :
  polls (polled c w) c' = if decide (c = c') then S (polls w c) else polls w c'.
Proof.
  unfold polls at 1, polled. rewrite lookup_insert. by case_decide.
Qed.

Lemma polls_polled_le c w c' : (polls w c' ≤ polls (polled c w) c')%nat.
Proof. rewrite polls_polled. case_decide; subst; lia. Qed.

Section boot_live.
Variables (sc : Script) (lib : Lib) (b : ID) (K : nat).
Local Abbreviation body := (ensureBootstrapped_poll (scripted sc) lib b).
Local Abbreviation interval := (λ _ : unit, apiRetryFreq lib).

Lemma boot_poll_scripted n nd sh st :
  ∃ st', body n nd sh st =
           (Ret (if (s_boot sc (GetAPIClient nd) (polls (world st) (GetAPIClient nd))).1
                 then Stop else Continue, tt), st') ∧
         world st' = polled (GetAPIClient nd) (world st).
Proof.
  unfold ensureBootstrapped_poll, bind, perform, log, ret. simpl.
  destruct (s_boot sc (GetAPIClient nd) (polls (world st) (GetAPIClient nd)))
    as [[] err]; simpl; eexists; split; reflexivity.
Qed.

Lemma boot_live s g st :
  no_cancel s → fit sc K s g st →
  ∃ g', (run_group interval body s g st).1 = (Ret tt, g') ∧ g_err g' = None.
Proof.
  revert g st. induction s as [|c s IH]; intros g st Hnc (He & Hc & Hw).
  - assert (Ha : all_returned g = true).
    { apply all_returned_spec. intros n nd ws Hn.
      destruct (Hw n nd ws Hn) as (Hneed & _ & _).
      destruct ws; simpl in *; [lia..|done]. }
    rewrite run_group_returned by done. eauto.
  - destruct (all_returned g) eqn:Ea.
    { rewrite run_group_returned by done. eauto. }
    apply Forall_cons in Hnc as [Hc0 Hnc].
    assert (Hskip : (∀ n, steps_of n s = steps_of n (c :: s)) →
              group_step interval body c g st = (Ret g, st) →
              ∃ g', (run_group interval body (c :: s) g st).1 = (Ret tt, g') ∧
                    g_err g' = None).
    { intros Hs Hst. rewrite run_group_skip by done. apply IH; [done|].
      split_and!; [done..|]. intros n nd ws Hn. rewrite Hs. by apply Hw. }
    destruct c as [[|n]|[|n]|e]; [by apply Hskip| |by apply Hskip| |done].
    2: { apply Hskip; [done|]. unfold group_step.
         destruct (g_workers g !! n) as [[nd [|d|r]]|]; try done.
         by rewrite Hc. }
    destruct (g_workers g !! n) as [[nd [|d|r]]|] eqn:En.
    + (* the goroutine arms its timer *)
      erewrite run_group_move; [|done|by apply group_step_arm].
      apply IH; [done|]. split_and!; [done..|].
      intros m nd' ws. simpl. rewrite lookup_insert. case_decide.
      * intros [= <- <-]. subst m. destruct (Hw n nd AtTop En) as (Hn & ? & _).
        simpl in *. rewrite decide_True in Hn by done. split_and!; [lia|done|done].
      * intros Hm. destruct (Hw m nd' ws Hm) as (Hn & ? & ?).
        simpl in Hn. rewrite decide_False in Hn by done. done.
    + (* its timer fires and it polls *)
      destruct (boot_poll_scripted n nd (g_shared g) st) as (st' & Eb & Ew).
      destruct (Hw n nd (Waiting d) En) as (Hn & Hr & _).
      simpl in Hn. rewrite decide_True in Hn by done.
      destruct (s_boot sc (GetAPIClient nd) (polls (world st) (GetAPIClient nd))).1
        eqn:Ebool.
      * erewrite run_group_move; [|done|unfold group_step; by rewrite En, Eb].
        apply IH; [done|]. split_and!.
        -- cbn [set_shared g_err]. by rewrite finish_err, He.
        -- cbn [set_shared g_ctx]. by rewrite finish_ctx, Hc.
        -- intros m nd' ws. cbn [set_shared g_workers]. rewrite finish_lookup.
           case_decide.
           ++ intros [= <- <-]. simpl. split_and!; [lia|done|congruence].
           ++ intros Hm. destruct (Hw m nd' ws Hm) as (Hn' & ? & ?).
              simpl in Hn'. rewrite decide_False in Hn' by done.
              split_and!; [|done..]. rewrite Ew.
              pose proof (polls_polled_le (GetAPIClient nd) (world st) (GetAPIClient nd')).
              destruct ws; simpl in *; lia.
      * erewrite run_group_move; [|done|unfold group_step; by rewrite En, Eb].
        assert (polls (world st) (GetAPIClient nd) < K)%nat as Hlt.
        { destruct (decide (K ≤ polls (world st) (GetAPIClient nd))%nat) as [Hle|]; [|lia].
          rewrite (Hr _ Hle) in Ebool. done. }
        apply IH; [done|]. split_and!; [done..|].
        intros m nd' ws. simpl. rewrite lookup_insert. case_decide.
        -- intros [= <- <-]. simpl. rewrite Ew, polls_polled, decide_True by done.
           subst m. split_and!; [lia|done|done].
        -- intros Hm. destruct (Hw m nd' ws Hm) as (Hn' & ? & ?).
           simpl in Hn'. rewrite decide_False in Hn' by done.
           split_and!; [|done..]. rewrite Ew.
           pose proof (polls_polled_le (GetAPIClient nd) (world st) (GetAPIClient nd')).
           destruct ws; simpl in *; lia.
    + rewrite run_group_skip by (unfold group_step; by rewrite En).
      apply IH; [done|]. split_and!; [done..|].
      intros m nd' ws Hm. destruct (Hw m nd' ws Hm) as (Hn' & ? & ?).
      split_and!; [|done..]. simpl in Hn'. case_decide; [|done].
      subst m. rewrite En in Hm. simplify_eq. simpl. lia.
    + rewrite run_group_skip by (unfold group_step; by rewrite En).
      apply IH; [done|]. split_and!; [done..|].
      intros m nd' ws Hm. destruct (Hw m nd' ws Hm) as (Hn' & ? & ?).
      split_and!; [|done..]. simpl in Hn'. case_decide; [|done].
      subst m. rewrite En in Hm. by simplify_eq.
Qed.
End boot_live.

Lemma boot_verdict_nil r : boot_verdict r = Some None ↔ ∃ err, r = RBoot true err.
Proof.
  split; [|by intros [err ->]].
  destruct r as [| | | | | | | | |[] err|]; simpl; try congruence. eauto.
Qed.

Lemma boot_verdict_no_error r e : boot_verdict r ≠ Some (Some e).
Proof. destruct r as [| | | | | | | | |[] err|]; simpl; congruence. Qed.

Lemma fan_out_of_run_nil {W S : Type} (interval : S → Duration)
    (body : string → Node → S → M (W := W) (iter * S)) sh nodes st g :
  (run_group interval body (sched st) (spawn sh nodes st) st).1 = (Ret tt, g) →
  g_err g = None →
  (fan_out interval body sh nodes st).1 = Ret tt.
Proof.
  unfold fan_out.
  destruct (run_group interval body (sched st) (spawn sh nodes st) st)
    as [[o g'] st'].
  simpl. intros [= -> ->] ->. done.
Qed.

(** C5.  The bootstrap wait swallows query errors: the only error it
    returns is the error of the caller's context, it returns nil exactly
    when the goroutine of every node has read [true], whatever errors came
    with the answers, and on a fleet whose nodes answer [true] from their
    [K]-th query on, and anything before, errors included, it does return
    nil under every schedule without cancellation that lets every goroutine
    move [2 * (K + 1)] times.  The validating wait does not: a failed query
    keeps it from returning nil, the goroutine that got it adds no timer
    and no query, and when the first query of a node fails the wait returns
    that error, wrapped, once the other goroutines have seen their context
    done. *)
Theorem finalization_query_errors (lib : Lib) (nodes : gmap string Node) (b : ID) :
  (∀ (W : Type) (api : API W) (st : state W),
     let r := ensureBootstrapped api lib nodes b st in
     (∀ e, r.1 = Err e → ctx r.2 = Some e) ∧
     (r.1 = Ret tt ↔
      ∀ n nd, nodes !! n = Some nd →
        ∃ err, ECall (Worker n) (boot_query lib b n nd) (RBoot true err) ∈
                 new_events st r.2)) ∧
  (∀ (sc : Script) (K : nat) (s : list choice) w t,
     (∀ n nd, nodes !! n = Some nd → ready sc K nd) →
     no_cancel s →
     (∀ n, is_Some (nodes !! n) → (2 * (K + 1) ≤ steps_of n s)%nat) →
     (ensureBootstrapped (scripted sc) lib nodes b
        {| world := w; trace := t; ctx := None; sched := s |}).1 = Ret tt) ∧
  (∀ (W : Type) (api : API W) (st : state W),
     let r := ensureValidating api lib nodes b st in
     (∀ n q e, ECall (Worker n) q (RChainStatus (Fail e)) ∈ new_events st r.2 →
               r.1 ≠ Ret tt) ∧
     (∀ t1 n q e t2,
        new_events st r.2 = t1 ++ ECall (Worker n) q (RChainStatus (Fail e)) :: t2 →
        Forall (λ ev, ¬ by_worker n ev) t2) ∧
     (∀ n0 nd0 e ks rest,
        nodes !! n0 = Some nd0 →
        (GetBlockchainStatus api (GetAPIClient nd0) (ID_String lib b) (world st)).1
          = Fail e →
        sched st = SStep (Worker n0) :: SStep (Worker n0) :: drain ks ++ rest →
        (∀ n, is_Some (nodes !! n) → n ∈ ks) →
        r.1 = Err (ErrWrap "error querying blockchain status" e))).
Proof.
  split_and!.
  - intros W api st r.
    pose proof (ensureBootstrapped_poll_polls api lib b) as Hp.
    destruct r as [o st'] eqn:Er. unfold ensureBootstrapped in Er. simpl.
    split.
    + intros e ->.
      destruct (fan_out_err _ _ _ _ Hp _ _ _ _ _ Er)
        as [(n & nd & x & _ & Hx & _)|?]; [|done].
      by apply boot_verdict_no_error in Hx.
    + rewrite (fan_out_nil_iff _ _ _ _ Hp _ _ _ _ _ Er). split.
      * intros H n nd Hn. destruct (H n nd Hn) as (x & Hx & Hi).
        apply boot_verdict_nil in Hx as [err ->]. eauto.
      * intros H n nd Hn. destruct (H n nd Hn) as (err & Hi).
        exists (RBoot true err). done.
  - intros sc K s w t Hready Hnc Hsteps.
    set (st := {| world := w; trace := t; ctx := None; sched := s |}).
    destruct (boot_live sc lib b K s (spawn tt nodes st) st Hnc) as (g & Hr & He).
    + split_and!; [done..|]. intros n nd ws. simpl. rewrite lookup_fmap.
      destruct (nodes !! n) as [nd'|] eqn:En; [|done].
      intros [= <- <-]. split_and!; [|by eapply Hready|done].
      assert (2 * (K + 1) ≤ steps_of n s)%nat by (apply Hsteps; by rewrite En).
      simpl. lia.
    + unfold ensureBootstrapped. by eapply fan_out_of_run_nil.
  - intros W api st r.
    pose proof (ensureValidating_poll_polls api lib b) as Hp.
    destruct r as [o st'] eqn:Er. unfold ensureValidating in Er. simpl.
    destruct (fan_out_events _ _ _ _ Hp _ _ _ _ _ Er) as (Ht & Hev & Hq).
    split_and!.
    + intros n q e Hi.
      by eapply (fan_out_hard _ _ _ _ Hp _ _ _ _ _ _ _ _ _ Er Hi).
    + intros t1 n q e t2 E. eapply Hq; [exact E|by eexists].
    + intros n0 nd0 e ks rest Hn HG Hs Hks.
      destruct (GetBlockchainStatus api (GetAPIClient nd0) (ID_String lib b) (world st))
        as [x w2] eqn:EG.
      simpl in HG. subst x.
      change o with (o, st').1. rewrite <- Er.
      eapply fan_out_fail_fast; [done| |done..].
      unfold ensureValidating_poll, bind, perform, try_wrap, fail. simpl.
      rewrite EG. reflexivity.
Qed.

Lemma finalization_query_errors_witness :
  (∀ n nd, Demo.fleet !! n = Some nd → ready Demo.good 2 nd) ∧
  no_cancel (round ["node1"; "node2"] ++ round ["node1"; "node2"] ++
             round ["node1"; "node2"]) ∧
  (ensureBootstrapped (scripted Demo.good) Demo.lib Demo.fleet 9%N
     {| world := ∅; trace := []; ctx := None;
        sched := round ["node1"; "node2"] ++ round ["node1"; "node2"] ++
                 round ["node1"; "node2"] |}).1 = Ret tt.
Proof.
  assert (H1 : ∀ n nd, Demo.fleet !! n = Some nd → ready Demo.good 2 nd).
  { intros n nd _ i Hi. simpl. destruct (decide (i < 2)%nat); [lia|reflexivity]. }
  assert (H2 : no_cancel (round ["node1"; "node2"] ++ round ["node1"; "node2"] ++
                          round ["node1"; "node2"])).
  { simpl. repeat constructor. }
  split; [exact H1|]. split; [exact H2|].
  destruct (finalization_query_errors Demo.lib Demo.fleet 9%N) as (_ & Hlive & _).
  apply (Hlive Demo.good 2%nat); [exact H1|exact H2|].
  intros n [nd Hn]. unfold Demo.fleet in Hn.
  apply lookup_insert_Some in Hn as [[<- _]|[_ Hn]]; [vm_compute; lia|].
  apply lookup_insert_Some in Hn as [[<- _]|[_ Hn]]; [vm_compute; lia|].
  rewrite lookup_empty in Hn. discriminate Hn.
Defined.

Lemma timers_paced_snoc lib t ev :
  timers_paced lib t →
  (∀ w d, ev = ETimer w d → d = pace lib t) →
  timers_paced lib (t ++ [ev]).
Proof.
  intros Ht Hev t1 w d t2 E.
  apply snoc_split in E as [(-> & -> & ->)|(t2' & -> & ->)]; [by eapply Hev|].
  by eapply Ht.
Qed.

Lemma timers_paced_app lib t evs :
  timers_paced lib t → Forall (λ ev, ¬ is_timer ev) evs →
  timers_paced lib (t ++ evs).
Proof.
  intros Ht. induction evs as [|ev evs IH] using rev_ind; intros Hl.
  - by rewrite app_nil_r.
  - apply Forall_app in Hl as [Hl Hev]. rewrite Forall_singleton in Hev.
    rewrite app_assoc. apply timers_paced_snoc; [by apply IH|].
    intros w d ->. by destruct Hev.
Qed.

Lemma pace_app lib t evs :
  pace lib (t ++ evs) =
    if validating_seen evs then apiRetryFreq lib else pace lib t.
Proof.
  unfold pace, validating_seen. rewrite existsb_app.
  by destruct (existsb is_validating t), (existsb is_validating evs).
Qed.

Lemma validating_seen_logs logs : Forall is_log logs → validating_seen logs = false.
Proof.
  induction 1 as [|ev logs Hev _ IH]; [done|].
  unfold validating_seen in *. simpl. rewrite IH. by destruct ev.
Qed.

Lemma logs_no_timer logs : Forall is_log logs → Forall (λ ev, ¬ is_timer ev) logs.
Proof. intros H. eapply Forall_impl; [exact H|]. intros ev Hev Ht. by destruct ev. Qed.

Section pacing.
Context {W : Type} (api : API W) (lib : Lib) (b : ID).

Lemma ensureValidating_poll_cases n nd sh st :
  ∃ x logs st',
    (ensureValidating_poll api lib b n nd sh st).2 = st' ∧
    trace st' = trace st ++ ECall (Worker n) (chain_query lib b n nd) x :: logs ∧
    Forall is_log logs ∧
    (ensureValidating_poll api lib b n nd sh st).1 =
      match x with
      | RChainStatus (Val Validating) => Ret (Stop, apiRetryFreq lib)
      | RChainStatus (Fail e) => Err (ErrWrap "error querying blockchain status" e)
      | _ => Ret (Continue, sh)
      end ∧
    ∃ r, x = RChainStatus r.
Proof.
  unfold ensureValidating_poll, chain_query, bind, perform, try_wrap, log, ret,
    fail, emit, set_world. simpl.
  destruct (GetBlockchainStatus api (GetAPIClient nd) (ID_String lib b) (world st))
    as [[status|e] w'].
  - exists (RChainStatus (Val status)).
    destruct status; simpl; eexists [_], _; rewrite <- app_assoc;
      (split_and!; [reflexivity|reflexivity|by repeat constructor|reflexivity|by eexists]).
  - exists (RChainStatus (Fail e)), []. eexists. simpl.
    split_and!; [reflexivity|reflexivity|constructor|reflexivity|by eexists].
Qed.

Lemma paced_step t0 c x y :
  paced lib t0 x →
  gstep (λ statusCheckTimeout, statusCheckTimeout)
    (ensureValidating_poll api lib b) c x y →
  paced (W := W) lib t0 y.
Proof.
  intros [Ht Hs Hp] Hstep.
  destruct Hstep as [e g st|n nd g st Hn|n nd d g st s st' Hn Hb
                     |n nd d g st s st' Hn Hb|n nd d g st e st' Hn Hb
                     |n nd d e g st Hn Hc]; simpl in Ht, Hs, Hp.
  - by split.
  - destruct (news_app t0 st (emit (ETimer (Worker n) (g_shared g)) st)
                [ETimer (Worker n) (g_shared g)] Ht eq_refl) as [En Et].
    split; simpl; [done| |].
    + rewrite En, pace_app. done.
    + rewrite En. apply timers_paced_snoc; [done|]. by intros w d' [= _ <-].
  - destruct (ensureValidating_poll_cases n nd (g_shared g) st)
      as (x & logs & st1 & E2 & Etr & Hl & E1 & r & ->).
    rewrite Hb in E1, E2. simpl in E1, E2. subst st1.
    destruct (news_app t0 st st' _ Ht Etr) as [En Et].
    assert (validating_seen (ECall (Worker n) (chain_query lib b n nd) (RChainStatus r) :: logs) = false
            ∧ s = g_shared g) as [Hv ->].
    { destruct r as [[]|]; simplify_eq; split; try done;
        unfold validating_seen; simpl; by apply validating_seen_logs. }
    split; simpl; [done| |].
    + by rewrite En, pace_app, Hv.
    + rewrite En. apply timers_paced_app; [done|].
      constructor; [by intros []|by apply logs_no_timer].
  - destruct (ensureValidating_poll_cases n nd (g_shared g) st)
      as (x & logs & st1 & E2 & Etr & Hl & E1 & r & ->).
    rewrite Hb in E1, E2. simpl in E1, E2. subst st1.
    destruct (news_app t0 st st' _ Ht Etr) as [En Et].
    assert (validating_seen (ECall (Worker n) (chain_query lib b n nd) (RChainStatus r) :: logs) = true
            ∧ s = apiRetryFreq lib) as [Hv ->].
    { destruct r as [[]|]; simplify_eq; done. }
    split; simpl; [done| |].
    + by rewrite En, pace_app, Hv.
    + rewrite En. apply timers_paced_app; [done|].
      constructor; [by intros []|by apply logs_no_timer].
  - destruct (ensureValidating_poll_cases n nd (g_shared g) st)
      as (x & logs & st1 & E2 & Etr & Hl & E1 & r & ->).
    rewrite Hb in E1, E2. simpl in E1, E2. subst st1.
    destruct (news_app t0 st st' _ Ht Etr) as [En Et].
    assert (validating_seen (ECall (Worker n) (chain_query lib b n nd) (RChainStatus r) :: logs) = false)
      as Hv.
    { destruct r as [[]|]; simplify_eq.
      unfold validating_seen; simpl; by apply validating_seen_logs. }
    split; cbn [fst snd]; [done| |].
    + by rewrite finish_shared, En, pace_app, Hv.
    + rewrite En. apply timers_paced_app; [done|].
      constructor; [by intros []|by apply logs_no_timer].
  - split; cbn [fst snd]; [done| |done]. by rewrite finish_shared.
Qed.

Lemma paced_run s nodes st :
  let run := run_group (λ statusCheckTimeout, statusCheckTimeout)
               (ensureValidating_poll api lib b) s
               (spawn (longTimeout lib) nodes st) st in
  paced lib (trace st) (run.1.2, run.2).
Proof.
  intros run. destruct run as [[o g] st'] eqn:Er. unfold run in Er.
  destruct (run_group_inv (λ statusCheckTimeout, statusCheckTimeout)
              (ensureValidating_poll api lib b) (paced lib (trace st)) s
              (spawn (longTimeout lib) nodes st) st o g st') as [Hp _].
  - eapply polls_with_total, ensureValidating_poll_polls.
  - intros c x y _. apply paced_step.
  - intros g0 st0 s0 []. by split.
  - destruct (news_start st) as [En Et]. split; simpl; rewrite ?En.
    + by rewrite app_nil_r.
    + done.
    + intros t1 w d t2 E. by destruct t1.
  - exact Er.
  - exact Hp.
Qed.

Lemma fan_out_state {S : Type} (interval : S → Duration)
    (body : string → Node → S → M (W := W) (iter * S)) sh nodes st :
  (fan_out interval body sh nodes st).2 =
    (run_group interval body (sched st) (spawn sh nodes st) st).2.
Proof.
  unfold fan_out.
  destruct (run_group interval body (sched st) (spawn sh nodes st) st)
    as [[[] g] st']; try done.
  by destruct (g_err g).
Qed.

(** With a fixed interval every timer of a fan-out has that duration. *)
Lemma fan_out_timers {S : Type} (interval : S → Duration)
    (body : string → Node → S → M (W := W) (iter * S)) query verdict d0
    sh nodes st :
  polls_with body query verdict → (∀ sh, interval sh = d0) →
  ∀ w d, ETimer w d ∈ new_events st (fan_out interval body sh nodes st).2 →
         d = d0.
Proof.
  intros Hp Hi. rewrite fan_out_state.
  destruct (run_group interval body (sched st) (spawn sh nodes st) st)
    as [[o g] st'] eqn:Er.
  set (I := λ x : group S * state W,
         trace x.2 = trace st ++ news (trace st) x.2 ∧
         ∀ w d, ETimer w d ∈ news (trace st) x.2 → d = d0).
  destruct (run_group_inv interval body I (sched st) (spawn sh nodes st) st o g st')
    as [[_ HI] _]; [| | | |exact Er|exact HI].
  - by eapply polls_with_total.
  - intros c x y _ [Ht Hd] Hstep.
    assert (Hbody : ∀ n nd g0 st0 o1 st1,
              trace st0 = trace st ++ news (trace st) st0 →
              (∀ w d, ETimer w d ∈ news (trace st) st0 → d = d0) →
              body n nd (g_shared g0) st0 = (o1, st1) →
              trace st1 = trace st ++ news (trace st) st1 ∧
              ∀ w d, ETimer w d ∈ news (trace st) st1 → d = d0).
    { intros n nd g0 st0 o1 st1 Ht0 Hd0 Hb.
      destruct (Hp n nd (g_shared g0) st0) as (r & w' & logs & sh' & Eb & Hl).
      rewrite Eb in Hb. simplify_eq.
      destruct (news_app (trace st) st0
                  {| world := w'; trace := trace st0 ++ ECall (Worker n) (query n nd) r :: logs;
                     ctx := ctx st0; sched := sched st0 |}
                  _ Ht0 eq_refl) as [En Et].
      split; [done|]. intros w d. rewrite En, elem_of_app, elem_of_cons.
      intros [?|[?|Hin]]; [by eapply Hd0|done|].
      rewrite Forall_forall in Hl. by apply Hl in Hin. }
    destruct Hstep as [e g0 st0|n nd g0 st0 Hn|n nd d g0 st0 s0 st1 Hn Hb
                       |n nd d g0 st0 s0 st1 Hn Hb|n nd d g0 st0 e st1 Hn Hb
                       |n nd d e g0 st0 Hn Hc]; unfold I; simpl in *;
      try done; try by eapply Hbody.
    destruct (news_app (trace st) st0 (emit (ETimer (Worker n) (interval (g_shared g0))) st0)
                [ETimer (Worker n) (interval (g_shared g0))] Ht eq_refl) as [En Et].
    split; [done|]. intros w d. rewrite En, elem_of_app, list_elem_of_singleton.
    intros [?|[= _ ->]]; [by eapply Hd|done].
  - by intros g0 st0 s0 [].
  - destruct (news_start st) as [En Et]. split; simpl; rewrite ?En.
    + by rewrite app_nil_r.
    + intros w d Hin. by apply elem_of_nil in Hin.
Qed.

(** C8.  In the validating wait [statusCheckTimeout] holds the long
    timeout until a goroutine has read Validating and the retry interval
    from then on: a timer armed before any Validating answer has the long
    timeout, every timer armed after one has the retry interval, so that
    the pacing goes from the long value to the retry interval once and
    never back.  The bootstrap wait reads no such variable: all its timers
    have the retry interval. *)
Theorem validating_pacing nodes st :
  let run := run_group (λ statusCheckTimeout, statusCheckTimeout)
               (ensureValidating_poll api lib b) (sched st)
               (spawn (longTimeout lib) nodes st) st in
  let new := new_events st (ensureValidating api lib nodes b st).2 in
  g_shared (spawn (longTimeout lib) nodes st) = longTimeout lib ∧
  g_shared run.1.2 =
    (if validating_seen new then apiRetryFreq lib else longTimeout lib) ∧
  (∀ t1 w d t2, new = t1 ++ ETimer w d :: t2 → validating_seen t1 = false →
                d = longTimeout lib) ∧
  (∀ t1 w d t2, new = t1 ++ ETimer w d :: t2 → validating_seen t1 = true →
                d = apiRetryFreq lib) ∧
  (∀ w d, ETimer w d ∈ new_events st (ensureBootstrapped api lib nodes b st).2 →
          d = apiRetryFreq lib).
Proof.
  intros run new.
  pose proof (paced_run (sched st) nodes st) as [Ht Hs Hp].
  fold run in Ht, Hs, Hp. simpl in Ht, Hs, Hp.
  assert (En : new = news (trace st) run.2).
  { unfold new, ensureValidating. by rewrite fan_out_state. }
  split_and!.
  - done.
  - by rewrite En.
  - intros t1 w d t2 E Hv. rewrite En in E. rewrite (Hp _ _ _ _ E).
    unfold pace. by rewrite Hv.
  - intros t1 w d t2 E Hv. rewrite En in E. rewrite (Hp _ _ _ _ E).
    unfold pace. by rewrite Hv.
  - unfold ensureBootstrapped.
    eapply fan_out_timers; [apply ensureBootstrapped_poll_polls|done].
Qed.
End pacing.

(** ** Creating the blockchain *)

Section createBlockchain_facts.
Context {W : Type} (api : API W) (lib : Lib).

Lemma createBlockchain_poll_cases a tx st :
  ∃ x logs st',
    createBlockchain_poll api a tx st =
      (match x with
       | RTxStatus (Val Committed) => Ret (Some tx)
       | RTxStatus (Fail e) => Err e
       | _ => Ret None
       end, st') ∧
    trace st' = trace st ++ ECall Main (CGetTxStatus (txPChainClient a) tx true) x :: logs ∧
    Forall is_log logs ∧ ctx st' = ctx st ∧
    (GetTxStatus api (txPChainClient a) tx true (world st)).1 =
      match x with RTxStatus r => r | _ => Fail ErrCanceled end ∧
    ∃ r, x = RTxStatus r.
Proof.
  unfold createBlockchain_poll, bind, perform, try, log, ret, fail, emit, set_world.
  simpl.
  destruct (GetTxStatus api (txPChainClient a) tx true (world st))
    as [[status|e] w'].
  - exists (RTxStatus (Val status)).
    destruct status; simpl; eexists [_], _; rewrite <- app_assoc;
      (split_and!; [reflexivity|reflexivity|by repeat constructor|done|done|by eexists]).
  - exists (RTxStatus (Fail e)), []. eexists. simpl.
    split_and!; [reflexivity|reflexivity|constructor|done|done|by eexists].
Qed.

(** The loop of [createBlockchain]: it polls the issuing node alone, at the
    retry interval, and ends on Committed, on a failed query or on the
    caller's context. *)
Lemma main_loop_createBlockchain a tx s w st o st' :
  main_loop (apiRetryFreq lib) (createBlockchain_poll api a tx) s w st = (o, st') →
  match w with Waiting d => d = apiRetryFreq lib | _ => True end →
  ∃ evs, trace st' = trace st ++ evs ∧
    Forall (issuer_poll_event lib a tx) evs ∧
    match o with
    | Ret id => id = tx ∧
        ECall Main (CGetTxStatus (txPChainClient a) tx true) (RTxStatus (Val Committed)) ∈ evs
    | Err e =>
        ECall Main (CGetTxStatus (txPChainClient a) tx true) (RTxStatus (Fail e)) ∈ evs ∨
        ctx st' = Some e
    | Panic => False
    | Pending => True
    end.
Proof.
  revert w st. induction s as [|c s IH]; intros w st E Hw; simpl in E.
  - simplify_eq. exists []. rewrite app_nil_r. split_and!; [done|constructor|done].
  - assert (Hskip : main_loop (apiRetryFreq lib) (createBlockchain_poll api a tx) s w st
                    = (o, st') → ∃ evs, trace st' = trace st ++ evs ∧
      Forall (issuer_poll_event lib a tx) evs ∧
      match o with
      | Ret id => id = tx ∧
          ECall Main (CGetTxStatus (txPChainClient a) tx true) (RTxStatus (Val Committed)) ∈ evs
      | Err e =>
          ECall Main (CGetTxStatus (txPChainClient a) tx true) (RTxStatus (Fail e)) ∈ evs ∨
          ctx st' = Some e
      | Panic => False
      | Pending => True
      end) by (intros E'; by apply (IH w st)).
    destruct c as [[|n]|[|n]|e].
    + destruct w as [|d|r].
      * (* the timer is armed *)
        destruct (IH _ _ E eq_refl) as (evs & Et & Hev & Ho).
        exists (ETimer Main (apiRetryFreq lib) :: evs). split_and!.
        -- rewrite Et. simpl. by rewrite <- app_assoc.
        -- by constructor.
        -- destruct o; try done; [destruct Ho; split; [done|by right]|].
           destruct Ho; [left; by right|by right].
      * (* the timer fires *)
        destruct (createBlockchain_poll_cases a tx st)
          as (x & logs & st1 & Eb & Et1 & Hl & Hc1 & _ & r & ->).
        rewrite Eb in E.
        assert (Hpre : Forall (issuer_poll_event lib a tx)
                  (ECall Main (CGetTxStatus (txPChainClient a) tx true) (RTxStatus r) :: logs)).
        { constructor; [done|]. eapply Forall_impl; [exact Hl|]. by intros []. }
        destruct r as [[]|e]; simplify_eq;
          try (destruct (IH _ _ E I) as (evs & Et & Hev & Ho);
               eexists (_ ++ evs); split_and!;
               [by rewrite Et, Et1, <- app_assoc
               |by apply Forall_app
               |destruct o; try done;
                [destruct Ho; split; [done|]; apply elem_of_app; by right
                |destruct Ho; [left; apply elem_of_app; by right|by right]]]).
        -- eexists. split; [exact Et1|]. split; [done|]. split; [done|]. by left.
        -- eexists. split; [exact Et1|]. split; [done|]. left. by left.
      * by apply Hskip.
    + by apply Hskip.
    + destruct w as [|d|r]; try by apply Hskip.
      destruct (ctx st) as [e|] eqn:Ec; [|by apply Hskip].
      simplify_eq. exists []. rewrite app_nil_r.
      split_and!; [done|constructor|by right].
    + destruct w; by apply Hskip.
    + destruct (IH _ _ E Hw) as (evs & Et & Hev & Ho).
      exists evs. split_and!; done.
Qed.

Lemma main_loop_pending a tx s w st :
  (∀ w0, ∃ status w', GetTxStatus api (txPChainClient a) tx true w0 = (Val status, w') ∧
                      status ≠ Committed) →
  ctx st = None → no_cancel s →
  (main_loop (apiRetryFreq lib) (createBlockchain_poll api a tx) s w st).1 = Pending.
Proof.
  intros Hq. revert w st. induction s as [|c s IH]; intros w st Hc Hnc; [done|].
  apply Forall_cons in Hnc as [Hc0 Hnc]. simpl.
  destruct c as [[|n]|[|n]|e]; try done; destruct w as [|d|r]; try by apply IH.
  - destruct (createBlockchain_poll_cases a tx st)
      as (x & logs & st1 & Eb & _ & _ & Hc1 & Hx & r & ->).
    rewrite Eb. destruct (Hq (world st)) as (status & w' & EG & Hne).
    rewrite EG in Hx. simpl in Hx. subst r.
    destruct status; try done; (apply IH; [congruence|done]).
  - rewrite Hc. by apply IH.
Qed.

(** C7.  [createBlockchain] reads the genesis file first and, when that
    fails, returns the wrapped error with nothing submitted.  Otherwise it
    submits the create-chain transaction once; what follows in its trace
    are timers of the retry interval, status queries for that transaction
    on the issuing node's client, and log lines, all on the main
    goroutine: no other node is asked.  It returns the transaction on
    Committed, which it does when the first status says so; its error
    after the submission is that of a failed status query or of the
    caller's context, and as long as the status is not Committed and the
    context is not cancelled it does not return, however long the
    schedule. *)
Theorem createBlockchain_issuer_only a vm st :
  let r := createBlockchain api lib a vm st in
  let new := new_events st r.2 in
  let submit genesis :=
    CCreateBlockchain (txPChainClient a) (userPass a) [fundedAddress a]
      (fundedAddress a) (rSubnetID a) (VMID vm) [] (Name vm) genesis in
  (∀ e w1, ReadFile api (Genesis vm) (world st) = (Fail e, w1) →
     r = (Err (ErrWrap ("could not read genesis file (" +:+ Genesis vm +:+ ")") e),
          {| world := w1;
             trace := trace st ++ [ECall Main (CReadFile (Genesis vm)) (RFile (Fail e))];
             ctx := ctx st; sched := sched st |})) ∧
  (∀ genesis w1, ReadFile api (Genesis vm) (world st) = (Val genesis, w1) →
     ∃ rt polls,
       new = ECall Main (CReadFile (Genesis vm)) (RFile (Val genesis)) ::
             ECall Main (submit genesis) (RTx rt) :: polls ∧
       match rt with
       | Fail e => polls = [] ∧ r.1 = Err (ErrWrap "could not create blockchain" e)
       | Val tx =>
         Forall (issuer_poll_event lib a tx) polls ∧
         match r.1 with
         | Ret id => id = tx ∧
             ECall Main (CGetTxStatus (txPChainClient a) tx true)
               (RTxStatus (Val Committed)) ∈ polls
         | Err e =>
             ECall Main (CGetTxStatus (txPChainClient a) tx true)
               (RTxStatus (Fail e)) ∈ polls ∨
             ctx r.2 = Some e
         | Panic => False
         | Pending => True
         end
       end) ∧
  (∀ genesis w1 tx w2 w3 rest,
     ReadFile api (Genesis vm) (world st) = (Val genesis, w1) →
     CreateBlockchain api (txPChainClient a) (userPass a) [fundedAddress a]
       (fundedAddress a) (rSubnetID a) (VMID vm) [] (Name vm) genesis w1
       = (Val tx, w2) →
     GetTxStatus api (txPChainClient a) tx true w2 = (Val Committed, w3) →
     sched st = SStep Main :: SStep Main :: rest →
     r.1 = Ret tx) ∧
  (∀ genesis w1 tx w2,
     ReadFile api (Genesis vm) (world st) = (Val genesis, w1) →
     CreateBlockchain api (txPChainClient a) (userPass a) [fundedAddress a]
       (fundedAddress a) (rSubnetID a) (VMID vm) [] (Name vm) genesis w1
       = (Val tx, w2) →
     (∀ w0, ∃ status w', GetTxStatus api (txPChainClient a) tx true w0 = (Val status, w') ∧
                         status ≠ Committed) →
     ctx st = None → no_cancel (sched st) →
     r.1 = Pending).
Proof.
  intros r new submit. split_and!.
  - intros e w1 HR. unfold r, createBlockchain, bind, perform, try_wrap, fail, emit,
      set_world. rewrite HR. done.
  - intros genesis w1 HR. unfold new, r, createBlockchain, bind, perform, try_wrap, fail,
      ret. rewrite HR. simpl.
    destruct (CreateBlockchain api (txPChainClient a) (userPass a) [fundedAddress a]
                (fundedAddress a) (rSubnetID a) (VMID vm) [] (Name vm) genesis w1)
      as [[tx|e] w2]; simpl.
    + set (st2 := emit _ (set_world w2 (emit _ (set_world w1 st)))).
      destruct (main_loop (apiRetryFreq lib) (createBlockchain_poll api a tx)
                  (sched st) AtTop st2) as [o st'] eqn:El.
      destruct (main_loop_createBlockchain _ _ _ _ _ _ _ El I) as (evs & Et & Hev & Ho).
      exists (Val tx), evs. split; [|by split].
      apply new_events_app. simpl. rewrite Et. unfold st2. simpl.
      by rewrite <- !app_assoc.
    + exists (Fail e), []. split; [|done].
      apply new_events_app. simpl. by rewrite <- !app_assoc.
  - intros genesis w1 tx w2 w3 rest HR HC HG Hs.
    unfold r, createBlockchain, bind, perform, try_wrap, fail, ret.
    rewrite HR. simpl. rewrite HC. simpl. rewrite Hs. simpl.
    unfold createBlockchain_poll, bind, perform, try, ret, log. simpl.
    rewrite HG. simpl. done.
  - intros genesis w1 tx w2 HR HC Hq Hc Hnc.
    unfold r, createBlockchain, bind, perform, try_wrap, fail, ret.
    rewrite HR. simpl. rewrite HC. simpl. by apply main_loop_pending.
Qed.
End createBlockchain_facts.

(** ** Registering the validators *)

Lemma app_split_marked {A} (P : A → Prop) (t evs t1 : list A) x t2 :
  t ++ evs = t1 ++ x :: t2 → P x → Forall (λ y, ¬ P y) evs →
  ∃ t2', t = t1 ++ x :: t2' ∧ t2 = t2' ++ evs.
Proof.
  revert t2. induction evs as [|y evs IH] using rev_ind; intros t2 E Hx Hevs.
  - exists t2. rewrite !app_nil_r in *. done.
  - apply Forall_app in Hevs as [Hevs Hy]. rewrite Forall_singleton in Hy.
    rewrite app_assoc in E.
    apply snoc_split in E as [(_ & _ & ->)|(t2' & -> & E)]; [done|].
    destruct (IH _ E Hx Hevs) as (t2'' & -> & ->).
    exists t2''. by rewrite <- app_assoc.
Qed.

Lemma mid_assoc {A} (t1 : list A) x t2 y t3 :
  t1 ++ x :: t2 ++ y :: t3 = (t1 ++ x :: t2) ++ y :: t3.
Proof. by rewrite <- app_assoc. Qed.

Lemma confirmed_app nodes r t evs : confirmed nodes r t → confirmed nodes r (t ++ evs).
Proof.
  intros (tx & -> & H). exists tx. split; [done|].
  intros n nd Hn. apply elem_of_app. left. by apply H.
Qed.

Lemma sequential_quiet nodes t evs :
  sequential nodes t → Forall (λ ev, ¬ is_Some (submit_node ev)) evs →
  sequential nodes (t ++ evs).
Proof.
  intros Hs Hevs t1 w1 c1 r1 t2 ev2 t3 E H1 H2.
  rewrite mid_assoc in E.
  apply (app_split_marked (λ ev, is_Some (submit_node ev))) in E
    as (t3' & E & _); [|done..].
  eapply Hs; [|done..]. by rewrite E, mid_assoc.
Qed.

Lemma all_confirmed_quiet nodes t evs :
  all_confirmed nodes t → Forall (λ ev, ¬ is_Some (submit_node ev)) evs →
  all_confirmed nodes (t ++ evs).
Proof.
  intros Ha Hevs t1 w1 c1 r1 t2 E H1.
  apply (app_split_marked (λ ev, is_Some (submit_node ev))) in E
    as (t2' & E & ->); [|done..].
  apply confirmed_app. by eapply Ha.
Qed.

Lemma sequential_submit nodes t ev :
  sequential nodes t → all_confirmed nodes t → sequential nodes (t ++ [ev]).
Proof.
  intros Hs Ha t1 w1 c1 r1 t2 ev2 t3 E H1 H2.
  rewrite mid_assoc in E.
  apply snoc_split in E as [(_ & -> & _)|(t3' & _ & E)].
  - by eapply Ha.
  - eapply Hs; [|done..]. by rewrite E, mid_assoc.
Qed.

Lemma all_confirmed_submit nodes t w c r evs :
  all_confirmed nodes t → confirmed nodes r evs →
  Forall (λ ev, ¬ is_Some (submit_node ev)) evs →
  all_confirmed nodes (t ++ ECall w c r :: evs).
Proof.
  intros Ha Hc Hevs t1 w1 c1 r1 t2 E H1.
  change (t ++ ECall w c r :: evs) with (t ++ [ECall w c r] ++ evs) in E.
  rewrite app_assoc in E.
  apply (app_split_marked (λ ev, is_Some (submit_node ev))) in E
    as (t2' & E & ->); [|done..].
  apply snoc_split in E as [(-> & _ & [= -> -> ->])|(t2'' & -> & E)].
  - done.
  - rewrite <- app_assoc. apply confirmed_app. by eapply Ha.
Qed.

Lemma submitted_app t evs : submitted (t ++ evs) = submitted t ++ submitted evs.
Proof. apply omap_app. Qed.

Lemma submitted_quiet evs :
  Forall (λ ev, ¬ is_Some (submit_node ev)) evs → submitted evs = [].
Proof.
  induction 1 as [|ev evs Hev _ IH]; [done|].
  unfold submitted in *. simpl.
  destruct (submit_node ev); [|done]. destruct Hev. by eexists.
Qed.

Lemma fan_out_event_quiet nodes tx evs :
  Forall (fan_out_event nodes (tx_query tx)) evs →
  Forall (λ ev, ¬ is_Some (submit_node ev)) evs.
Proof.
  intros H. eapply Forall_impl; [exact H|].
  intros [[|n] c r| |] Hev [x Hx]; try done.
  simpl in Hev. destruct Hev as (nd & _ & ->). done.
Qed.

Section registration.
Context {W : Type} (api : API W) (lib : Lib).

Lemma fan_out_confirms a tx st st' :
  fan_out (λ _, apiRetryFreq lib) (addValidator_poll api tx) tt (allNodes a) st
    = (Ret tt, st') →
  confirmed (allNodes a) (RTx (Val tx)) (new_events st st').
Proof.
  intros E. exists tx. split; [done|]. intros n nd Hn.
  pose proof (addValidator_poll_polls api tx) as Hp.
  destruct (proj1 (fan_out_nil_iff _ _ _ _ Hp _ _ _ _ _ E) eq_refl n nd Hn)
    as (x & Hx & Hi).
  by apply tx_verdict_nil in Hx as ->.
Qed.

Lemma addAllAsValidators_loop_spec a sid l t0 st o st' :
  addAllAsValidators_loop api lib a sid l st = (o, st') →
  trace st = t0 ++ news t0 st →
  sequential (allNodes a) (news t0 st) →
  all_confirmed (allNodes a) (news t0 st) →
  trace st' = t0 ++ news t0 st' ∧
  sequential (allNodes a) (news t0 st') ∧
  (∃ k, submitted (news t0 st') =
          submitted (news t0 st) ++ take k (map (node_id_of lib) l)) ∧
  (o = Ret tt →
     all_confirmed (allNodes a) (news t0 st') ∧
     submitted (news t0 st') = submitted (news t0 st) ++ map (node_id_of lib) l) ∧
  o ≠ Panic.
Proof.
  revert st. induction l as [|[k node] l IH]; intros st E Ht Hs Ha.
  - simpl in E. unfold ret in E. simplify_eq. split_and!; try done.
    + exists 0%nat. by rewrite app_nil_r.
    + intros _. by rewrite app_nil_r.
  - simpl in E. unfold bind at 1, perform at 1 in E.
    destruct (Now api (world st)) as [t1 w1].
    unfold bind at 1, perform at 1 in E. simpl in E.
    destruct (Now api w1) as [t2 w2].
    unfold bind at 1, perform at 1 in E. simpl in E.
    set (nodeID := PrefixedString lib NodeIDPrefix (GetNodeID node)) in *.
    set (c := CAddSubnetValidator _ _ _ _ _ _ _ _ _) in *.
    destruct (AddSubnetValidator api (txPChainClient a) (userPass a)
                [fundedAddress a] (fundedAddress a) sid nodeID
                (validatorWeight lib) (unix_u64 t1 (validatorStartDiff lib))
                (unix_u64 t2 (validatorEndDiff lib)) w2) as [r w3].
    set (st3 := emit (ECall Main c (RTx r)) _) in E.
    set (pre := [ECall Main CNow (RNow t1); ECall Main CNow (RNow t2)]).
    assert (Et3 : trace st3 = trace st ++ pre ++ [ECall Main c (RTx r)]).
    { unfold st3. simpl. by rewrite <- !app_assoc. }
    destruct (news_app t0 st st3 _ Ht Et3) as [En3 Ht3].
    assert (Hpre : Forall (λ ev, ¬ is_Some (submit_node ev)) pre).
    { repeat constructor; by intros [? ?]. }
    assert (Hs3 : sequential (allNodes a) (news t0 st3)).
    { rewrite En3, app_assoc. apply sequential_submit.
      - by apply sequential_quiet.
      - by apply all_confirmed_quiet. }
    assert (Hsub3 : submitted (news t0 st3) = submitted (news t0 st) ++ [nodeID]).
    { rewrite En3. by rewrite !submitted_app. }
    destruct r as [tx|e]; unfold bind at 1, try_wrap, fail, ret in E.
    2: { simplify_eq. split_and!; try done.
         exists 1%nat. rewrite Hsub3. simpl. by rewrite take_0. }
    destruct (fan_out (λ _, apiRetryFreq lib) (addValidator_poll api tx) tt
                (allNodes a) st3) as [o4 st4] eqn:Ef.
    pose proof (addValidator_poll_polls api tx) as Hp.
    destruct (fan_out_events _ _ _ _ Hp _ _ _ _ _ Ef) as (Ht4 & Hev4 & _).
    apply fan_out_event_quiet in Hev4.
    destruct (news_app t0 st3 st4 _ Ht3 Ht4) as [En4 Ht4'].
    assert (Hs4 : sequential (allNodes a) (news t0 st4)).
    { rewrite En4. by apply sequential_quiet. }
    assert (Hsub4 : submitted (news t0 st4) = submitted (news t0 st) ++ [nodeID]).
    { by rewrite En4, submitted_app, Hsub3, (submitted_quiet _ Hev4), app_nil_r. }
    unfold bind in E. rewrite Ef in E.
    destruct o4 as [[]|e| |].
    + (* the wait returned nil: on to the next node *)
      assert (Ha4 : all_confirmed (allNodes a) (news t0 st4)).
      { assert (E4 : news t0 st4 = (news t0 st ++ pre) ++
                  ECall Main c (RTx (Val tx)) :: new_events st3 st4).
        { rewrite En4, En3. by rewrite <- !app_assoc. }
        rewrite E4. apply all_confirmed_submit; [|by apply fan_out_confirms|done].
        by apply all_confirmed_quiet. }
      destruct (IH st4 E Ht4' Hs4 Ha4) as (Ht' & Hs' & [j Hsub'] & Hret & Hp').
      split_and!; try done.
      * exists (S j). rewrite Hsub', Hsub4, <- app_assoc. done.
      * intros ->. destruct (Hret eq_refl) as [? Hsub'']. split; [done|].
        rewrite Hsub'', Hsub4, <- app_assoc. done.
    + simplify_eq. split_and!; try done.
      exists 1%nat. rewrite Hsub4. simpl. by rewrite take_0.
    + destruct (fan_out_outcome _ _ _ _ Hp _ _ _ _ _ Ef) as [?|[[? ?]|?]]; simplify_eq.
    + simplify_eq. split_and!; try done.
      exists 1%nat. rewrite Hsub4. simpl. by rewrite take_0.
Qed.
End registration.

Section round_live.
Context {W S : Type}.
Variable interval : S → Duration.
Variable body : string → Node → S → M (W := W) (iter * S).
Implicit Types (g : group S) (st : state W).

Lemma group_step_stop n nd d s g st st' :
  g_workers g !! n = Some (nd, Waiting d) →
  body n nd (g_shared g) st = (Ret (Stop, s), st') →
  group_step interval body (SStep (Worker n)) g st =
    (Ret (set_shared s (finish n nd None g)), st').
Proof. intros H Hb. unfold group_step. by rewrite H, Hb. Qed.

(** When every poll ends its goroutine with nil, one round ends the wait
    and leaves the rest of the schedule. *)
Lemma run_round ks rest g st :
  (∀ n nd sh st0, ∃ sh' st1, body n nd sh st0 = (Ret (Stop, sh'), st1)) →
  NoDup ks → g_err g = None →
  (∀ n nd ws, g_workers g !! n = Some (nd, ws) →
     if decide (n ∈ ks) then ws = AtTop else ws = Returned None) →
  (∀ n, n ∈ ks → is_Some (g_workers g !! n)) →
  ∃ g' st', run_group interval body (round ks ++ rest) g st = (Ret tt, g', st') ∧
            g_err g' = None ∧ sched st' = rest.
Proof.
  intros Hstop. revert g st. induction ks as [|n ks IH]; intros g st Hnd He Hw Hks.
  - assert (Ha : all_returned g = true).
    { apply all_returned_spec. intros n nd ws Hn. by rewrite (Hw n nd ws Hn). }
    simpl. rewrite run_group_returned by done. eauto.
  - apply NoDup_cons in Hnd as [Hn Hnd].
    destruct (Hks n) as [[nd ws] En]; [by left|].
    pose proof (Hw n nd ws En) as Hws. rewrite decide_True in Hws by by left.
    subst ws.
    assert (Ha : all_returned g = false).
    { apply not_true_iff_false. rewrite all_returned_active. intros H.
      apply (H n). by exists nd, AtTop. }
    change (round (n :: ks) ++ rest) with
      (SStep (Worker n) :: SStep (Worker n) :: (round ks ++ rest)).
    erewrite run_group_move; [|done|by apply group_step_arm].
    set (g1 := set_worker n nd (Waiting (interval (g_shared g))) g).
    set (st1 := emit _ st).
    assert (En1 : g_workers g1 !! n = Some (nd, Waiting (interval (g_shared g)))).
    { apply lookup_insert_eq. }
    assert (Ha1 : all_returned g1 = false).
    { apply not_true_iff_false. rewrite all_returned_active. intros H.
      apply (H n). by eexists nd, _. }
    destruct (Hstop n nd (g_shared g1) st1) as (sh' & st2 & Eb).
    erewrite run_group_move; [|done|by eapply group_step_stop].
    apply IH; [done| | |].
    + cbn [set_shared g_err]. rewrite finish_err.
      change (g_err g1) with (g_err g). by rewrite He.
    + intros m nd' ws. cbn [set_shared g_workers]. rewrite finish_lookup.
      case_decide.
      * intros [= <- <-]. subst m. by rewrite decide_False by done.
      * unfold g1. simpl. rewrite lookup_insert_ne by done. intros Hm.
        pose proof (Hw m nd' ws Hm) as Hm'.
        destruct (decide (m ∈ ks)) as [Hin|Hin].
        -- rewrite decide_True in Hm' by by right. done.
        -- rewrite decide_False in Hm'; [done|].
           intros [->|?]%elem_of_cons; done.
    + intros m Hm. cbn [set_shared g_workers]. rewrite finish_lookup.
      case_decide; [by eexists|].
      unfold g1. simpl. rewrite lookup_insert_ne by done. apply Hks. by right.
Qed.

(** The same for the whole fan-out. *)
Lemma fan_out_round ks rest sh nodes st :
  (∀ n nd sh st0, ∃ sh' st1, body n nd sh st0 = (Ret (Stop, sh'), st1)) →
  NoDup ks → (∀ n, n ∈ ks ↔ is_Some (nodes !! n)) →
  sched st = round ks ++ rest →
  ∃ st', fan_out interval body sh nodes st = (Ret tt, st') ∧ sched st' = rest.
Proof.
  intros Hstop Hnd Hks Hs. unfold fan_out. rewrite Hs.
  destruct (run_round ks rest (spawn sh nodes st) st) as (g' & st' & -> & -> & ?);
    try done.
  - intros n nd ws. simpl. rewrite lookup_fmap.
    destruct (nodes !! n) as [nd'|] eqn:En; [|done].
    intros [= <- <-]. rewrite decide_True; [done|]. apply Hks. by rewrite En.
  - intros n Hn. apply Hks in Hn as [nd Hn]. simpl. rewrite lookup_fmap, Hn.
    by eexists.
  - eauto.
Qed.
End round_live.

Section registration_live.
Context {W : Type} (api : API W) (lib : Lib).

Lemma addValidator_poll_stops tx :
  always_committed api →
  ∀ n nd sh st0, ∃ sh' st1,
    addValidator_poll api tx n nd sh st0 = (Ret (Stop, sh'), st1).
Proof.
  intros Hc n nd sh st0.
  unfold addValidator_poll, bind, perform, try, log, ret. simpl.
  destruct (Hc (GetAPIClient nd) tx (world st0)) as [w' ->]. simpl. eauto.
Qed.

Lemma addAllAsValidators_loop_live a sid ks l rest st :
  always_committed api → always_accepts api →
  NoDup ks → (∀ n, n ∈ ks ↔ is_Some (allNodes a !! n)) →
  sched st = mjoin (replicate (length l) (round ks)) ++ rest →
  ∃ st', addAllAsValidators_loop api lib a sid l st = (Ret tt, st') ∧
         sched st' = rest.
Proof.
  intros Hc Hacc Hnd Hks. revert st.
  induction l as [|[k node] l IH]; intros st Hs.
  - simpl. unfold ret. eauto.
  - simpl. unfold bind at 1, perform at 1.
    destruct (Now api (world st)) as [t1 w1].
    unfold bind at 1, perform at 1. simpl.
    destruct (Now api w1) as [t2 w2].
    unfold bind at 1, perform at 1. simpl.
    destruct (Hacc (txPChainClient a) (userPass a) [fundedAddress a]
                (fundedAddress a) sid (PrefixedString lib NodeIDPrefix (GetNodeID node))
                (validatorWeight lib) (unix_u64 t1 (validatorStartDiff lib))
                (unix_u64 t2 (validatorEndDiff lib)) w2) as (tx & w3 & ->).
    unfold bind at 1, try_wrap, ret.
    set (st3 := emit _ _).
    destruct (fan_out_round (λ _, apiRetryFreq lib) (addValidator_poll api tx)
                ks (mjoin (replicate (length l) (round ks)) ++ rest) tt
                (allNodes a) st3) as (st4 & Ef & Hs4).
    + by apply addValidator_poll_stops.
    + done.
    + done.
    + unfold st3. simpl. rewrite Hs. simpl. by rewrite <- app_assoc.
    + unfold bind. rewrite Ef. by apply IH.
Qed.

(** C4.  [addAllAsValidators] submits one registration for each entry of
    the node map, in the order of the range, as many as the map has nodes:
    what a run has submitted is a prefix of these, and all of them when it
    returns nil.  Between two
    submissions of a run, the goroutine of every node has read Committed
    for the earlier one: no registration is submitted before the wait for
    the one before has returned nil, and none after a wait that did not.
    With nodes that report every transaction committed and accept every
    submission, the stage does return nil when the schedule gives each wait
    one round. *)
Theorem addAllAsValidators_sequential a sid st :
  let r := addAllAsValidators api lib a sid st in
  let new := new_events st r.2 in
  let ids := map (node_id_of lib) (range_nodes api (allNodes a)) in
  ids ≡ₚ map (node_id_of lib) (map_to_list (allNodes a)) ∧
  length ids = size (allNodes a) ∧
  (∃ k, submitted new = take k ids) ∧
  (r.1 = Ret tt → submitted new = ids ∧ all_confirmed (allNodes a) new) ∧
  sequential (allNodes a) new ∧
  (∀ ks rest,
     always_committed api → always_accepts api →
     NoDup ks → (∀ n, n ∈ ks ↔ is_Some (allNodes a !! n)) →
     sched st = mjoin (replicate (size (allNodes a)) (round ks)) ++ rest →
     r.1 = Ret tt).
Proof.
  intros r new ids.
  assert (Hlen : length ids = size (allNodes a)).
  { unfold ids. rewrite length_map, (range_nodes_perm api (allNodes a)).
    apply length_map_to_list. }
  destruct (addAllAsValidators_loop api lib a sid (range_nodes api (allNodes a)) st)
    as [o1 st1] eqn:El.
  destruct (news_start st) as [En0 Et0].
  destruct (addAllAsValidators_loop_spec api lib a sid _ (trace st) st o1 st1 El Et0)
    as (Ht1 & Hs1 & [k Hsub1] & Hret1 & Hp1).
  { rewrite En0. intros t1 w1 c1 r1 t2 ev2 t3 E. by destruct t1. }
  { rewrite En0. intros t1 w1 c1 r1 t2 E. by destruct t1. }
  rewrite En0 in Hsub1. simpl in Hsub1.
  assert (Hlog : Forall (λ ev, ¬ is_Some (submit_node ev))
            [ELog Info "all nodes added as subnet validators for subnet %s" [LStr sid]]).
  { repeat constructor. by intros [? ?]. }
  assert (Er : (o1 = Ret tt ∧ r.1 = Ret tt ∧
                new = news (trace st) st1 ++
                  [ELog Info "all nodes added as subnet validators for subnet %s" [LStr sid]]) ∨
               (o1 ≠ Ret tt ∧ r.1 = o1 ∧ new = news (trace st) st1)).
  { unfold new, r, addAllAsValidators, bind. rewrite El.
    destruct o1 as [[]|e| |]; [left|right..]; (split; [done|]); (split; [done|]);
      apply new_events_app; simpl; try done.
    by rewrite Ht1, <- app_assoc. }
  split_and!.
  - unfold ids. apply Permutation_map, range_nodes_perm.
  - done.
  - destruct Er as [(_ & _ & ->)|(_ & _ & ->)]; exists k; [|done].
    by rewrite submitted_app, (submitted_quiet _ Hlog), app_nil_r.
  - intros Hr. destruct Er as [(-> & _ & ->)|(? & ? & _)]; [|congruence].
    destruct (Hret1 eq_refl) as [Ha Hsub]. rewrite En0 in Hsub. split.
    + by rewrite submitted_app, (submitted_quiet _ Hlog), app_nil_r.
    + by apply all_confirmed_quiet.
  - destruct Er as [(_ & _ & ->)|(_ & _ & ->)]; [|done].
    by apply sequential_quiet.
  - intros ks rest Hc Hacc Hnd Hks Hs.
    destruct (addAllAsValidators_loop_live a sid ks
                (range_nodes api (allNodes a)) rest st) as (st' & El' & _);
      try done.
    { rewrite Hs. do 3 f_equal. unfold ids in Hlen. by rewrite length_map in Hlen. }
    unfold r, addAllAsValidators, bind. by rewrite El'.
Qed.
End registration_live.

(** ** The chain identifier *)

Lemma count_creates_app t1 t2 :
  count_creates (t1 ++ t2) = (count_creates t1 + count_creates t2)%nat.
Proof. induction t1 as [|ev t1 IH]; simpl; [done|]. rewrite IH. lia. Qed.

Lemma count_creates_quiet t :
  Forall (λ ev, is_create ev = false) t → count_creates t = 0%nat.
Proof. induction 1 as [|ev t Hev _ IH]; simpl; [done|]. by rewrite Hev, IH. Qed.

Lemma chain_bound_shape lib pre w c r mid fin :
  Forall plain pre → is_create (ECall w c r) = true → Forall plain mid →
  (∀ tx, r = RTx (Val tx) → Forall (about lib tx) fin) →
  ((∀ tx, r ≠ RTx (Val tx)) → fin = []) →
  chain_bound lib (pre ++ ECall w c r :: mid ++ fin).
Proof.
  intros Hpre Hc Hmid Hfin Hnone. split.
  - intros ev s Hin Hs.
    assert (Hplain : ∀ l, Forall plain l → ev ∈ l → False).
    { intros l Hl Hev. rewrite Forall_forall in Hl. destruct (Hl _ Hev). congruence. }
    apply elem_of_app in Hin as [Hin|Hin]; [by destruct (Hplain pre)|].
    apply elem_of_cons in Hin as [->|Hin]; [by destruct c|].
    apply elem_of_app in Hin as [Hin|Hin]; [by destruct (Hplain mid)|].
    assert (∃ tx, r = RTx (Val tx)) as [tx ->].
    { destruct r as [| | | |[tx|]| | | | | |]; eauto;
        rewrite Hnone in Hin by done; by apply elem_of_nil in Hin. }
    exists w, c, tx. split_and!; [|done|].
    + apply elem_of_app. right. by left.
    + specialize (Hfin tx eq_refl). rewrite Forall_forall in Hfin.
      by apply (Hfin _ Hin).
  - rewrite count_creates_app.
    change (count_creates (ECall w c r :: mid ++ fin)) with
      ((if is_create (ECall w c r) then 1 else 0) + count_creates (mid ++ fin))%nat.
    rewrite Hc, count_creates_app.
    rewrite !count_creates_quiet; [lia| | |].
    + destruct r as [| | | |[tx|]| | | | | |];
        try (rewrite Hnone by done; constructor).
      eapply Forall_impl; [by apply Hfin|]. by intros ? [? _].
    + eapply Forall_impl; [exact Hmid|]. by intros ? [_ ?].
    + eapply Forall_impl; [exact Hpre|]. by intros ? [_ ?].
Qed.

Lemma chain_bound_plain lib t : Forall plain t → chain_bound lib t.
Proof.
  intros Ht. split.
  - intros ev s Hin Hs. rewrite Forall_forall in Ht. destruct (Ht _ Hin). congruence.
  - rewrite count_creates_quiet; [lia|].
    eapply Forall_impl; [exact Ht|]. by intros ? [_ ?].
Qed.

Section adds_facts.
Context {W : Type}.
Implicit Types P : event → Prop.

Lemma adds_ret {A} P (a : A) : adds (W := W) P (ret a).
Proof. intros st o st' [= <- <-]. exists []. by rewrite app_nil_r. Qed.

Lemma adds_fail {A} P e : adds (W := W) (A := A) P (fail e).
Proof. intros st o st' [= <- <-]. exists []. by rewrite app_nil_r. Qed.

Lemma adds_panic {A} P : adds (W := W) (A := A) P panic.
Proof. intros st o st' [= <- <-]. exists []. by rewrite app_nil_r. Qed.

Lemma adds_try {A} P (r : res A) : adds (W := W) P (try r).
Proof. destruct r; [apply adds_ret|apply adds_fail]. Qed.

Lemma adds_try_wrap {A} P msg (r : res A) : adds (W := W) P (try_wrap msg r).
Proof. destruct r; [apply adds_ret|apply adds_fail]. Qed.

Lemma adds_log P l f args : P (ELog l f args) → adds (W := W) P (log l f args).
Proof. intros HP st o st' [= <- <-]. exists [ELog l f args]. by repeat constructor. Qed.

Lemma adds_perform {A} P w c (h : W → A * W) r :
  (∀ a, P (ECall w c (r a))) → adds P (perform w c h r).
Proof.
  intros HP st o st'. unfold perform. destruct (h (world st)) as [a w'].
  intros [= <- <-]. exists [ECall w c (r a)]. by repeat constructor.
Qed.

Lemma adds_bind {A B} P (m : M (W := W) A) (f : A → M B) :
  adds P m → (∀ a, adds P (f a)) → adds P (bind m f).
Proof.
  intros Hm Hf st o st'. unfold bind.
  destruct (m st) as [o1 st1] eqn:Em.
  destruct (Hm _ _ _ Em) as (evs1 & Et1 & H1).
  destruct o1 as [a|e| |]; try (intros [= <- <-]; by exists evs1).
  intros Ef. destruct (Hf a _ _ _ Ef) as (evs2 & Et2 & H2).
  exists (evs1 ++ evs2). split; [|by apply Forall_app].
  by rewrite Et2, Et1, <- app_assoc.
Qed.

Lemma adds_wrapping {A} P msg (m : M (W := W) A) : adds P m → adds P (wrapping msg m).
Proof.
  intros Hm st o st'. unfold wrapping. destruct (m st) as [o1 st1] eqn:Em.
  destruct (Hm _ _ _ Em) as (evs1 & Et1 & H1).
  destruct o1; intros [= <- <-]; by exists evs1.
Qed.

Lemma adds_replacing {A} P e (m : M (W := W) A) : adds P m → adds P (replacing e m).
Proof.
  intros Hm st o st'. unfold replacing. destruct (m st) as [o1 st1] eqn:Em.
  destruct (Hm _ _ _ Em) as (evs1 & Et1 & H1).
  destruct o1; intros [= <- <-]; by exists evs1.
Qed.

Lemma adds_impl {A} P Q (m : M (W := W) A) :
  (∀ ev, P ev → Q ev) → adds P m → adds Q m.
Proof.
  intros HPQ Hm st o st' E. destruct (Hm _ _ _ E) as (evs & Et & H).
  exists evs. split; [done|]. by eapply Forall_impl.
Qed.

Lemma adds_fan_out {S} P (interval : S → Duration)
    (body : string → Node → S → M (W := W) (iter * S)) query verdict sh nodes :
  polls_with body query verdict →
  (∀ ev, fan_out_event nodes query ev → P ev) →
  adds P (fan_out interval body sh nodes).
Proof.
  intros Hp HP st o st' E.
  destruct (fan_out_events _ _ _ _ Hp _ _ _ _ _ E) as (Ht & Hev & _).
  exists (new_events st st'). split; [done|]. by eapply Forall_impl.
Qed.
End adds_facts.

Section stage_facts.
Context {W : Type} (api : API W) (lib : Lib).

(** A fan-out adds what its timers and its loop bodies add. *)
Lemma adds_fan_out_body {S} P (interval : S → Duration)
    (body : string → Node → S → M (W := W) (iter * S)) sh nodes :
  body_total body →
  (∀ n nd sh, adds P (body n nd sh)) → (∀ n d, P (ETimer (Worker n) d)) →
  adds P (fan_out interval body sh nodes).
Proof.
  intros Hb Hbody Htimer st o st' E.
  assert (Es : st' = (run_group interval body (sched st) (spawn sh nodes st) st).2).
  { rewrite <- fan_out_state, E. done. }
  destruct (run_group interval body (sched st) (spawn sh nodes st) st)
    as [[o1 g] st1] eqn:Er. simpl in Es. subst st1.
  set (I := λ x : group S * state W, ∃ evs, trace x.2 = trace st ++ evs ∧ Forall P evs).
  destruct (run_group_inv interval body I (sched st) (spawn sh nodes st) st o1 g st')
    as [HI _]; [done| | | |exact Er|exact HI].
  - intros c x y _ (evs & Et & Hevs) Hstep.
    assert (Hrun : ∀ n nd g0 st0 o2 st2, trace st0 = trace st ++ evs →
              body n nd (g_shared g0) st0 = (o2, st2) →
              ∃ evs', trace st2 = trace st ++ evs' ∧ Forall P evs').
    { intros n nd g0 st0 o2 st2 Et0 Eb.
      destruct (Hbody _ _ _ _ _ _ Eb) as (evs2 & Et2 & H2).
      exists (evs ++ evs2). split; [|by apply Forall_app].
      by rewrite Et2, Et0, <- app_assoc. }
    destruct Hstep as [e g0 st0|n nd g0 st0 Hn|n nd d g0 st0 s0 st2 Hn Heb
                       |n nd d g0 st0 s0 st2 Hn Heb|n nd d g0 st0 e st2 Hn Heb
                       |n nd d e g0 st0 Hn Hc]; unfold I; simpl in *;
      try (by exists evs); try by eapply Hrun.
    exists (evs ++ [ETimer (Worker n) (interval (g_shared g0))]).
    split; [by rewrite Et, <- app_assoc|].
    apply Forall_app. split; [done|]. by repeat constructor.
  - by intros g0 st0 s0.
  - exists []. simpl. split; [by rewrite app_nil_r|constructor].
Qed.

Ltac adds_step :=
  first [ apply adds_ret | apply adds_fail | apply adds_panic | apply adds_try
        | apply adds_try_wrap
        | apply adds_log; done
        | apply adds_perform; intros; done
        | apply adds_wrapping | apply adds_replacing
        | apply adds_bind; [|intros ?] ].

Lemma createSubnet_poll_adds tx n nd sh :
  adds not_endpoint (createSubnet_poll api tx n nd sh).
Proof.
  unfold createSubnet_poll. repeat adds_step. case_decide; repeat adds_step.
Qed.

Lemma addValidator_poll_adds tx n nd sh :
  adds not_endpoint (addValidator_poll api tx n nd sh).
Proof.
  unfold addValidator_poll. repeat adds_step. case_decide; repeat adds_step.
Qed.

Lemma ensureValidating_poll_adds b n nd sh :
  adds not_endpoint (ensureValidating_poll api lib b n nd sh).
Proof.
  unfold ensureValidating_poll. repeat adds_step. case_decide; repeat adds_step.
Qed.

Lemma ensureBootstrapped_poll_adds b n nd sh :
  adds not_endpoint (ensureBootstrapped_poll api lib b n nd sh).
Proof.
  unfold ensureBootstrapped_poll. apply adds_bind; [adds_step|].
  intros [[] err]; repeat adds_step.
Qed.

Lemma tx_fan_out_plain nodes tx ev :
  fan_out_event nodes (tx_query tx) ev ∧ not_endpoint ev → plain ev.
Proof.
  intros [Hf Hn]. destruct ev as [[|n] c r|[|n] d|l f args]; try done.
  - destruct Hf as (nd & _ & ->). done.
  - split; [|done]. simpl in *.
    destruct args as [|? [|? [|? [|[] [|]]]]]; try done. by rewrite decide_False.
Qed.

Lemma adds_and {A} P Q (m : M (W := W) A) :
  adds P m → adds Q m → adds (λ ev, P ev ∧ Q ev) m.
Proof.
  intros HP HQ st o st' E.
  destruct (HP _ _ _ E) as (evs & Et & H1), (HQ _ _ _ E) as (evs' & Et' & H2).
  rewrite Et in Et'. apply app_inv_head in Et'. subst evs'.
  exists evs. split; [done|]. by apply Forall_and.
Qed.

Lemma createSubnet_adds a : adds plain (createSubnet api lib a).
Proof.
  unfold createSubnet. apply adds_bind; [by apply adds_perform|].
  intros r. apply adds_bind; [adds_step|]. intros tx.
  eapply adds_impl; [apply (tx_fan_out_plain (allNodes a) tx)|].
  apply adds_and.
  - eapply adds_fan_out; [apply createSubnet_poll_polls|done].
  - apply adds_fan_out_body; [|intros; apply createSubnet_poll_adds|done].
    eapply polls_with_total, createSubnet_poll_polls.
Qed.

Lemma addAllAsValidators_adds a sid : adds plain (addAllAsValidators api lib a sid).
Proof.
  unfold addAllAsValidators. apply adds_bind; [|intros; by apply adds_log].
  induction (range_nodes api (allNodes a)) as [|[k node] l IH]; simpl; [adds_step|].
  apply adds_bind; [by apply adds_perform|]. intros t1.
  apply adds_bind; [by apply adds_perform|]. intros t2.
  apply adds_bind; [by apply adds_perform|]. intros r.
  apply adds_bind; [adds_step|]. intros tx.
  apply adds_bind; [|intros; exact IH].
  eapply adds_impl; [apply (tx_fan_out_plain (allNodes a) tx)|].
  apply adds_and.
  - eapply adds_fan_out; [apply addValidator_poll_polls|done].
  - apply adds_fan_out_body; [|intros; apply addValidator_poll_adds|done].
    eapply polls_with_total, addValidator_poll_polls.
Qed.

Lemma newArgs_adds vm key : adds plain (newArgs api lib vm key).
Proof.
  unfold newArgs. apply adds_bind; [by apply adds_perform|]. intros r.
  apply adds_bind; [adds_step|]. intros m.
  apply adds_bind; [by apply adds_perform|]. intros r'.
  apply adds_bind; [adds_step|]. intros [|n ns]; [adds_step|].
  destruct (m !! n) as [nd|]; [|adds_step].
  apply adds_bind; [by apply adds_perform|]. intros [[] [err|]]; try apply adds_fail.
  apply adds_bind; [by apply adds_perform|]. intros r''.
  repeat adds_step.
Qed.

Lemma isSubnetInList_adds c id : adds plain (isSubnetInList api c id).
Proof.
  unfold isSubnetInList. apply adds_bind; [by apply adds_perform|].
  intros [l|e]; adds_step.
Qed.
End stage_facts.

Section chain_facts.
Context {W : Type} (api : API W) (lib : Lib).

Lemma adds_main_loop {A} P d (body : M (W := W) (option A)) s w st o st' :
  adds P body → P (ETimer Main d) →
  main_loop d body s w st = (o, st') →
  ∃ evs, trace st' = trace st ++ evs ∧ Forall P evs.
Proof.
  intros Hb Ht. revert w st. induction s as [|c s IH]; intros w st E; simpl in E.
  - simplify_eq. exists []. by rewrite app_nil_r.
  - destruct c as [[|n]|[|n]|e]; try by eapply IH.
    + destruct w as [|d'|r]; try by eapply IH.
      * destruct (IH _ _ E) as (evs & Et & Hevs).
        exists (ETimer Main d :: evs). split; [|by constructor].
        rewrite Et. simpl. by rewrite <- app_assoc.
      * destruct (body st) as [o1 st1] eqn:Eb.
        destruct (Hb _ _ _ Eb) as (evs1 & Et1 & H1).
        destruct o1 as [[a|]|e| |]; simplify_eq; try by exists evs1.
        destruct (IH _ _ E) as (evs & Et & Hevs).
        exists (evs1 ++ evs). split; [|by apply Forall_app].
        by rewrite Et, Et1, <- app_assoc.
    + destruct w as [|d'|r]; try by eapply IH.
      destruct (ctx st) as [e|]; [|by eapply IH].
      simplify_eq. exists []. by rewrite app_nil_r.
    + destruct (IH _ _ E) as (evs & Et & Hevs). by exists evs.
Qed.

Lemma createBlockchain_adds a vm : adds not_endpoint (createBlockchain api lib a vm).
Proof.
  unfold createBlockchain. apply adds_bind; [by apply adds_perform|]. intros r.
  apply adds_bind; [apply adds_try_wrap|]. intros genesis.
  apply adds_bind; [by apply adds_perform|]. intros r'.
  apply adds_bind; [apply adds_try_wrap|]. intros tx st o st' E.
  eapply adds_main_loop; [| |exact E]; [|done].
  unfold createBlockchain_poll. apply adds_bind; [by apply adds_perform|].
  intros r''. apply adds_bind; [apply adds_try|]. intros status.
  case_decide; (apply adds_bind; [by apply adds_log|intros; apply adds_ret]).
Qed.

(** The runs of [createBlockchain]. *)
Lemma createBlockchain_runs a vm st o st' :
  createBlockchain api lib a vm st = (o, st') →
  (∃ e, trace st' = trace st ++ [ECall Main (CReadFile (Genesis vm)) (RFile (Fail e))] ∧
        o = Err (ErrWrap ("could not read genesis file (" +:+ Genesis vm +:+ ")") e)) ∨
  ∃ genesis rt polls,
    trace st' = trace st ++
      ECall Main (CReadFile (Genesis vm)) (RFile (Val genesis)) ::
      ECall Main
        (CCreateBlockchain (txPChainClient a) (userPass a) [fundedAddress a]
           (fundedAddress a) (rSubnetID a) (VMID vm) [] (Name vm) genesis)
        (RTx rt) :: polls ∧
    match rt with
    | Fail e => polls = [] ∧ o = Err (ErrWrap "could not create blockchain" e)
    | Val tx =>
      Forall (issuer_poll_event lib a tx) polls ∧
      match o with
      | Ret id => id = tx ∧
          ECall Main (CGetTxStatus (txPChainClient a) tx true)
            (RTxStatus (Val Committed)) ∈ polls
      | Err e =>
          ECall Main (CGetTxStatus (txPChainClient a) tx true)
            (RTxStatus (Fail e)) ∈ polls ∨
          ctx st' = Some e
      | Panic => False
      | Pending => True
      end
    end.
Proof.
  unfold createBlockchain, bind, perform, try_wrap, fail, ret.
  destruct (ReadFile api (Genesis vm) (world st)) as [[genesis|e] w1]; simpl.
  2: { intros [= <- <-]. left. exists e. done. }
  destruct (CreateBlockchain api (txPChainClient a) (userPass a) [fundedAddress a]
              (fundedAddress a) (rSubnetID a) (VMID vm) [] (Name vm) genesis w1)
    as [[tx|e] w2]; simpl.
  - set (st2 := emit _ (set_world w2 (emit _ (set_world w1 st)))).
    intros El. right.
    destruct (main_loop_createBlockchain _ _ _ _ _ _ _ _ _ El I) as (evs & Et & Hev & Ho).
    exists genesis, (Val tx), evs. split; [|done].
    rewrite Et. unfold st2. simpl. by rewrite <- !app_assoc.
  - intros [= <- <-]. right. exists genesis, (Fail e), []. split; [|done].
    simpl. by rewrite <- !app_assoc.
Qed.

Lemma finalize_event_about nodes b ev : finalize_event lib nodes b ev → about lib b ev.
Proof.
  destruct ev as [[|n] c r|[|n] d|l f args]; simpl; try done.
  - intros (nd & _ & [-> | ->]); split; try done; by intros s [= <-].
  - intros Hf. split; [done|]. intros s. unfold chain_of.
    destruct args as [|? [|? [|? [|[] [|]]]]]; try done.
    case_decide; [|done]. intros [= <-].
    destruct (Hf H) as (nd & [= _ _ _ ->]). done.
Qed.

Lemma chain_fan_out_event nodes b ev :
  (fan_out_event nodes (chain_query lib b) ev ∨ fan_out_event nodes (boot_query lib b) ev) ∧
  not_endpoint ev →
  finalize_event lib nodes b ev.
Proof.
  intros [Hf Hn]. destruct ev as [[|n] c r|[|n] d|l f args]; simpl in *;
    try (by destruct Hf).
  destruct Hf as [(nd & ? & ->)|(nd & ? & ->)]; eauto.
Qed.

Lemma finalizeBlockchain_adds nodes b :
  adds (finalize_event lib nodes b) (finalizeBlockchain api lib nodes b).
Proof.
  unfold finalizeBlockchain.
  apply adds_bind; [apply adds_wrapping|intros _].
  { unfold ensureValidating.
    eapply adds_impl; [apply chain_fan_out_event|]. apply adds_and.
    - eapply adds_impl; [|eapply adds_fan_out; [apply ensureValidating_poll_polls|done]].
      intros ev. by left.
    - apply adds_fan_out_body; [|intros; apply ensureValidating_poll_adds|done].
      eapply polls_with_total, ensureValidating_poll_polls. }
  apply adds_bind; [apply adds_wrapping|intros _].
  { unfold ensureBootstrapped.
    eapply adds_impl; [apply chain_fan_out_event|]. apply adds_and.
    - eapply adds_impl; [|eapply adds_fan_out; [apply ensureBootstrapped_poll_polls|done]].
      intros ev. by right.
    - apply adds_fan_out_body; [|intros; apply ensureBootstrapped_poll_adds|done].
      eapply polls_with_total, ensureBootstrapped_poll_polls. }
  apply adds_bind; [by apply adds_log|intros _].
  induction (range_nodes api nodes) as [|[k n] l IH]; simpl; [apply adds_ret|].
  apply adds_bind; [|intros; exact IH].
  apply adds_log. intros _. by exists n.
Qed.

Lemma setup_prelude_adds vm key : adds plain (setup_prelude api lib vm key).
Proof.
  unfold setup_prelude.
  apply adds_bind; [by apply adds_log|intros _].
  apply adds_bind; [apply adds_wrapping, newArgs_adds|intros a].
  apply adds_bind; [apply adds_wrapping, createSubnet_adds|intros _].
  apply adds_bind; [by apply adds_log|intros _].
  apply adds_bind; [apply adds_replacing, isSubnetInList_adds|intros _].
  apply adds_bind; [apply adds_wrapping, addAllAsValidators_adds|intros _].
  apply adds_ret.
Qed.

Lemma SetupSubnet_split vm key st :
  SetupSubnet api lib vm key st =
    (let* args := setup_prelude api lib vm key in
     let* blockchainID := wrapping "failed creating blockchain"
                            (createBlockchain api lib args vm) in
     let* _ := wrapping "error checking all nodes are validating subnet"
                 (finalizeBlockchain api lib (allNodes args) blockchainID) in
     ret tt) st.
Proof.
  unfold SetupSubnet, setup_prelude, bind.
  repeat match goal with
         | |- context [match ?m ?s with _ => _ end] =>
           lazymatch m with
           | wrapping _ (createBlockchain _ _ _ _) => fail
           | wrapping _ (finalizeBlockchain _ _ _ _) => fail
           | _ => destruct (m s) as [[?|?| |] ?]; try reflexivity
           end
         end.
Qed.

Lemma issuer_poll_plain a tx ev :
  issuer_poll_event lib a tx ev ∧ not_endpoint ev → plain ev.
Proof.
  intros [Hi Hn]. destruct ev as [[|n] c r|[|n] d|l f args]; try done.
  - simpl in Hi. by subst c.
  - split; [|done]. simpl in *.
    destruct args as [|? [|? [|? [|[] [|]]]]]; try done. by rewrite decide_False.
Qed.

(** The chain identifiers in a run of [SetupSubnet]. *)
Lemma SetupSubnet_chain_bound vm key st :
  chain_bound lib (new_events st (SetupSubnet api lib vm key st).2).
Proof.
  rewrite SetupSubnet_split. unfold bind at 1.
  destruct (setup_prelude api lib vm key st) as [o1 st1] eqn:E1.
  destruct (setup_prelude_adds vm key _ _ _ E1) as (pre & Et1 & Hpre).
  destruct o1 as [a|e| |];
    [|simpl; rewrite (new_events_app st st1 pre Et1); by apply chain_bound_plain..].
  unfold bind at 1, wrapping at 1.
  destruct (createBlockchain api lib a vm st1) as [o2 st2] eqn:E2.
  destruct (createBlockchain_adds a vm _ _ _ E2) as (cb & Et2 & Hcb).
  destruct (createBlockchain_runs a vm _ _ _ E2)
    as [(e & Et2' & ->)|(genesis & rt & polls & Et2' & Hrt)].
  { simpl.
    rewrite (new_events_app st st2 (pre ++ cb)) by (by rewrite Et2, Et1, <- app_assoc).
    apply chain_bound_plain, Forall_app. split; [done|].
    rewrite Et2 in Et2'. apply app_inv_head in Et2'. subst cb.
    by repeat constructor. }
  rewrite Et2 in Et2'. apply app_inv_head in Et2'. subst cb.
  apply Forall_cons in Hcb as [_ Hcb]. apply Forall_cons in Hcb as [_ Hcb].
  set (rd := ECall Main (CReadFile (Genesis vm)) (RFile (Val genesis))) in *.
  set (c := CCreateBlockchain _ _ _ _ _ _ _ _ _) in *.
  assert (Hpre' : Forall plain (pre ++ [rd])).
  { apply Forall_app. split; [done|]. by repeat constructor. }
  assert (Hshape : ∀ st3 fin,
            trace st3 = trace st2 ++ fin →
            Forall plain polls →
            (∀ tx, RTx rt = RTx (Val tx) → Forall (about lib tx) fin) →
            ((∀ tx, RTx rt ≠ RTx (Val tx)) → fin = []) →
            chain_bound lib (new_events st st3)).
  { intros st3 fin Et3 Hpolls Hfin Hnone.
    rewrite (new_events_app st st3 ((pre ++ [rd]) ++ ECall Main c (RTx rt) :: polls ++ fin)).
    - by apply chain_bound_shape.
    - rewrite Et3, Et2, Et1. by rewrite <- !app_assoc. }
  destruct rt as [tx|e].
  - destruct Hrt as [Hpolls Ho].
    assert (Hplain : Forall plain polls).
    { eapply Forall_impl; [|apply (issuer_poll_plain a tx)].
      by apply Forall_and. }
    assert (Hstop : chain_bound lib (new_events st st2)).
    { apply (Hshape st2 []); [by rewrite app_nil_r|done|constructor|done]. }
    destruct o2 as [id|e| |]; [|exact Hstop..].
    destruct Ho as [-> _]. unfold bind, wrapping.
    destruct (finalizeBlockchain api lib (allNodes a) tx st2) as [o3 st3] eqn:E3.
    destruct (finalizeBlockchain_adds (allNodes a) tx _ _ _ E3) as (fin & Et3 & Hfin).
    assert (chain_bound lib (new_events st st3)) as Hb.
    { apply (Hshape st3 fin); [done|done| |].
      - intros tx' [= <-]. eapply Forall_impl; [exact Hfin|].
        apply finalize_event_about.
      - intros Hne. by destruct (Hne tx). }
    by destruct o3 as [[]|e| |].
  - destruct Hrt as [-> ->]. simpl.
    apply (Hshape st2 []); [by rewrite app_nil_r|constructor|constructor|done].
Qed.

(** C10.  The identifier [createBlockchain] returns is the transaction the
    create-chain submission returned.  [finalizeBlockchain] asks the nodes
    for the validating status and the bootstrap status of the chain it is
    given and of no other, sends no other call, and prints the string of
    that chain in every endpoint line.  In a run of [SetupSubnet] there is
    at most one create-chain submission, and every chain identifier in a
    status query of the finalization and in an endpoint line is the string
    of the transaction that submission returned. *)
Theorem blockchainID_is_create_chain_tx vm key st :
  (∀ a st1 id,
     (createBlockchain api lib a vm st1).1 = Ret id →
     ∃ genesis,
       ECall Main
         (CCreateBlockchain (txPChainClient a) (userPass a) [fundedAddress a]
            (fundedAddress a) (rSubnetID a) (VMID vm) [] (Name vm) genesis)
         (RTx (Val id)) ∈ new_events st1 (createBlockchain api lib a vm st1).2) ∧
  (∀ nodes b st1,
     Forall (finalize_event lib nodes b)
       (new_events st1 (finalizeBlockchain api lib nodes b st1).2)) ∧
  (let new := new_events st (SetupSubnet api lib vm key st).2 in
   (count_creates new ≤ 1)%nat ∧
   ∀ ev s, ev ∈ new → chain_of ev = Some s →
     ∃ w c tx, ECall w c (RTx (Val tx)) ∈ new ∧
               is_create (ECall w c (RTx (Val tx))) = true ∧
               s = ID_String lib tx).
Proof.
  split_and!.
  - intros a st1 id Hr.
    destruct (createBlockchain api lib a vm st1) as [o st'] eqn:E. simpl in *.
    subst o.
    destruct (createBlockchain_runs a vm _ _ _ E)
      as [(e & _ & ?)|(genesis & rt & polls & Et & Hrt)]; [done|].
    exists genesis. rewrite (new_events_app _ _ _ Et).
    destruct rt as [tx|e]; [|by destruct Hrt].
    destruct Hrt as [_ [-> _]]. right. left.
  - intros nodes b st1.
    destruct (finalizeBlockchain api lib nodes b st1) as [o st'] eqn:E.
    destruct (finalizeBlockchain_adds nodes b _ _ _ E) as (fin & Et & Hfin).
    simpl. by rewrite (new_events_app _ _ _ Et).
  - intros new. destruct (SetupSubnet_chain_bound vm key st) as [H1 H2]. done.
Qed.
End chain_facts.


(** ** The two-node fleet again *)

Lemma demo_names n : n ∈ Demo.names ↔ is_Some (Demo.fleet !! n).
Proof.
  unfold Demo.names, Demo.fleet. split.
  - rewrite !elem_of_cons, elem_of_nil. intros [->|[->|[]]]; by eexists.
  - intros [nd Hn].
    apply lookup_insert_Some in Hn as [[<- _]|[_ Hn]]; [by left|].
    apply lookup_insert_Some in Hn as [[<- _]|[_ Hn]]; [right; by left|].
    by rewrite lookup_empty in Hn.
Qed.

Lemma addAllAsValidators_sequential_witness :
  always_committed (scripted Demo.prompt) ∧
  always_accepts (scripted Demo.prompt) ∧
  NoDup Demo.names ∧
  (addAllAsValidators (scripted Demo.prompt) Demo.lib Demo.a "subnet"
     (start ∅ (round Demo.names ++ round Demo.names))).1 = Ret tt.
Proof.
  assert (H1 : always_committed (scripted Demo.prompt)).
  { intros c tx w. eexists. reflexivity. }
  assert (H2 : always_accepts (scripted Demo.prompt)).
  { intros c up from change sid nodeID weight s e w. eexists _, _. reflexivity. }
  assert (H3 : NoDup Demo.names).
  { unfold Demo.names. apply NoDup_cons. split; [|apply NoDup_singleton].
    intros Hin. apply list_elem_of_singleton in Hin. discriminate Hin. }
  split; [exact H1|]. split; [exact H2|]. split; [exact H3|].
  destruct (addAllAsValidators_sequential (scripted Demo.prompt) Demo.lib Demo.a
              "subnet" (start ∅ (round Demo.names ++ round Demo.names)))
    as (_ & _ & _ & _ & _ & Hlive).
  apply (Hlive Demo.names []); [exact H1|exact H2|exact H3|exact demo_names|].
  reflexivity.
Defined.

Lemma createBlockchain_issuer_only_witness :
  ReadFile (scripted Demo.prompt) "/genesis" ∅ = (Val [], ∅) ∧
  (createBlockchain (scripted Demo.prompt) Demo.lib Demo.a Demo.vm
     (start ∅ [SStep Main; SStep Main])).1 = Ret 9%N.
Proof.
  split; [reflexivity|].
  destruct (createBlockchain_issuer_only (scripted Demo.prompt) Demo.lib Demo.a
              Demo.vm (start ∅ [SStep Main; SStep Main]))
    as (_ & _ & Hlive & _).
  apply (Hlive [] ∅ 9%N ∅ (polled "c1" ∅) []); reflexivity.
Defined.

Lemma blockchainID_is_create_chain_tx_witness :
  (createBlockchain (scripted Demo.prompt) Demo.lib Demo.a Demo.vm
     (start ∅ [SStep Main; SStep Main])).1 = Ret 9%N ∧
  ∃ genesis,
    ECall Main
      (CCreateBlockchain "c1" (defaultUserPass Demo.lib) ["P-addr"] "P-addr" 7%N
         "vmid" [] "vm" genesis)
      (RTx (Val 9%N)) ∈
    new_events (start ∅ [SStep Main; SStep Main])
      (createBlockchain (scripted Demo.prompt) Demo.lib Demo.a Demo.vm
         (start ∅ [SStep Main; SStep Main])).2.
Proof.
  split; [reflexivity|].
  destruct (blockchainID_is_create_chain_tx (scripted Demo.prompt) Demo.lib
              Demo.vm "key" (start ∅ [])) as (Hid & _ & _).
  apply (Hid Demo.a (start ∅ [SStep Main; SStep Main]) 9%N). reflexivity.
Defined.

(** C8 on the two-node fleet: the goroutine of the first node arms the long
    timeout and reads Validating; the timer the second arms after that has
    the retry interval. *)
Example validating_pacing_run :
  new_events (start ∅ (round Demo.names))
    (ensureValidating (scripted Demo.good) Demo.lib Demo.fleet 9%N
       (start ∅ (round Demo.names))).2 =
    [ETimer (Worker "node1") (longTimeout Demo.lib);
     ECall (Worker "node1") (CGetBlockchainStatus "c1" "chain")
       (RChainStatus (Val Validating));
     ELog Info "%s validating blockchain %s" [LStr "NodeID-short"; LID 9%N];
     ETimer (Worker "node2") (apiRetryFreq Demo.lib);
     ECall (Worker "node2") (CGetBlockchainStatus "c2" "chain")
       (RChainStatus (Val Validating));
     ELog Info "%s validating blockchain %s" [LStr "NodeID-short"; LID 9%N]].
Proof. reflexivity. Qed.
